(** * Gig-request API: the in-memory record store and its handlers

    A shallow embedding of the two variants of the server found in the
    repository:

    - [Basic]    : [src/main.go], one [Email] field, listing is unfiltered;
    - [Supplier] : [src/unnamed/part_000] (second document), [ClientEmail] and
                   [SupplierEmail] fields, listing filtered by the
                   [supplier_email] query parameter.

    The process-wide variables [requests] and [nextID] become a [Store]
    record that every handler receives and returns.  The reading of the wall
    clock ([time.Now()]) and the outcome of decoding the JSON body are inputs
    of the handlers; what a handler hands to the response writer is its
    [Response]. *)

From Stdlib Require Import ZArith Ascii String List Sorted Lia.
From stdpp Require Import base option list strings sorting.

Local Open Scope Z_scope.
Local Open Scope string_scope.
Local Open Scope list_scope.

(** ** Go values shared by both variants *)

(** Go's [int] on the 64-bit targets the server is built for: arithmetic
    wraps around in two's complement. *)
Definition int_bits : Z := 64.
Definition max_int : Z := 2 ^ (int_bits - 1) - 1.
Definition min_int : Z := - 2 ^ (int_bits - 1).
Definition wrap_int (z : Z) : Z :=
  (z + 2 ^ (int_bits - 1)) mod 2 ^ int_bits - 2 ^ (int_bits - 1).

(** [time.Time], as an instant on the wall clock. *)
Definition Time : Type := Z.

(** A Go slice value.  [var s []T] is the nil slice, [[]T{}] is an empty
    non-nil one; both have length 0, and [append] on either yields a non-nil
    slice.  (The JSON encoder prints the first as [null], the second as
    [[]].) *)
Inductive slice (A : Type) : Type :=
| nil_slice
| mk_slice (l : list A).
Arguments nil_slice {A}.
Arguments mk_slice {A} l.

Definition elems {A} (s : slice A) : list A :=
  match s with
  | nil_slice => []
  | mk_slice l => l
  end.

Definition len {A} (s : slice A) : nat := length (elems s).

Definition append {A} (s : slice A) (x : A) : slice A :=
  mk_slice (elems s ++ [x]).

(** Status codes of [net/http]. *)
Definition StatusOK : Z := 200.
Definition StatusCreated : Z := 201.
Definition StatusBadRequest : Z := 400.
Definition StatusMethodNotAllowed : Z := 405.

(** The result of [json.NewDecoder(r.Body).Decode(&newRequest)] on a zero
    [Request]: an error, or the struct with the fields the body supplied
    (every field of the struct has a JSON tag, [id] and [created_at]
    included, so the caller may supply any of them). *)
Inductive Decoded (R : Type) : Type :=
| DecodeError (err : string)
| DecodeOk (r : R).
Arguments DecodeError {R} err.
Arguments DecodeOk {R} r.

(** What the handlers read from [*http.Request]. *)
Record HttpRequest (R : Type) : Type := mkHttpRequest {
  Method : string;
  (** [r.URL.Query().Get("supplier_email")]: empty when the parameter is absent *)
  supplier_email_param : string;
  Body : Decoded R
}.
Arguments mkHttpRequest {R}.
Arguments Method {R}.
Arguments supplier_email_param {R}.
Arguments Body {R}.

(** What a handler writes to [http.ResponseWriter]: the status and the value
    it passes to [http.Error] or to the JSON encoder. *)
Inductive Payload (R : Type) : Type :=
| NoBody
| Text (msg : string)
| JsonList (s : slice R)
| JsonOne (r : R).
Arguments NoBody {R}.
Arguments Text {R} msg.
Arguments JsonList {R} s.
Arguments JsonOne {R} r.

Record Response (R : Type) : Type := mkResponse {
  Status : Z;
  Content : Payload R
}.
Arguments mkResponse {R}.
Arguments Status {R}.
Arguments Content {R}.

Definition http_Error {R} (msg : string) (code : Z) : Response R :=
  mkResponse code (Text msg).

(** The records of the successful creations among a list of responses, in
    the order of the responses. *)
Definition created {R} (rs : list (Response R)) : list R :=
  omap (fun resp =>
          match Content resp with
          | JsonOne r => if (Status resp =? StatusCreated)%Z then Some r else None
          | _ => None
          end) rs.

(** Characters that [strings.TrimSpace] removes (the ASCII ones): space,
    tab, line feed, vertical tab, form feed, carriage return. *)
Definition is_space (c : ascii) : bool :=
  let n := Ascii.nat_of_ascii c in
  ((n =? 32) || (n =? 9) || (n =? 10) || (n =? 11) || (n =? 12) || (n =? 13))%nat.

(** A text is blank when nothing is left of it once white space is ignored. *)
Fixpoint blank (s : string) : bool :=
  match s with
  | EmptyString => true
  | String c s' => is_space c && blank s'
  end.

(** ** The single-email variant ([src/main.go]) *)
Module Basic.

Record Request : Type := mkRequest {
  ID : Z;
  GigTitle : string;
  Client : string;
  Email : string;
  Details : string;
  CreatedAt : Time
}.

Definition set_ID (r : Request) (id : Z) : Request :=
  mkRequest id (GigTitle r) (Client r) (Email r) (Details r) (CreatedAt r).

Definition set_CreatedAt (r : Request) (t : Time) : Request :=
  mkRequest (ID r) (GigTitle r) (Client r) (Email r) (Details r) t.

(** The global state: [requests] and [nextID] ([mu] guards them). *)
Record Store : Type := mkStore {
  requests : slice Request;
  nextID : Z
}.

Definition init : Store := mkStore (mk_slice []) 1.

(** [listRequests]: encodes [requests] as it is; the request is not read. *)
Definition listRequests (st : Store) (r : HttpRequest Request)
  : Store * Response Request :=
  (st, mkResponse StatusOK (JsonList (requests st))).

(** The condition of the "Basic Validation" [if]. *)
Definition missing_required (newRequest : Request) : bool :=
  (GigTitle newRequest =? "") || (Client newRequest =? "")
  || (Email newRequest =? "").

Definition createRequest (st : Store) (now : Time) (r : HttpRequest Request)
  : Store * Response Request :=
  match Body r with
  | DecodeError err =>
      (st, http_Error ("Invalid request body: " ++ err)%string StatusBadRequest)
  | DecodeOk newRequest =>
      if missing_required newRequest then
        (st, http_Error "Missing required fields (gig_title, client, email)"
                        StatusBadRequest)
      else
        let newRequest := set_ID newRequest (nextID st) in
        let newRequest := set_CreatedAt newRequest now in
        let st := mkStore (append (requests st) newRequest) (nextID st) in
        let st := mkStore (requests st) (wrap_int (nextID st + 1)) in
        (st, mkResponse StatusCreated (JsonOne newRequest))
  end.

Definition RequestsHandler (st : Store) (now : Time) (r : HttpRequest Request)
  : Store * Response Request :=
  if Method r =? "GET" then listRequests st r
  else if Method r =? "POST" then createRequest st now r
  else (st, http_Error "Method not allowed" StatusMethodNotAllowed).

Definition CORSHandler
    (next : Store -> Time -> HttpRequest Request -> Store * Response Request)
    (st : Store) (now : Time) (r : HttpRequest Request)
  : Store * Response Request :=
  if Method r =? "OPTIONS" then (st, mkResponse StatusOK NoBody)
  else next st now r.

(** The handler registered for [/requests]. *)
Definition serve := CORSHandler RequestsHandler.

(** The server answering a sequence of requests one after the other; each
    comes with the clock reading its handler would get. *)
Fixpoint run (st : Store) (ins : list (Time * HttpRequest Request))
  : Store * list (Response Request) :=
  match ins with
  | [] => (st, [])
  | (now, r) :: rest =>
      let '(st1, resp) := serve st now r in
      let '(st2, resps) := run st1 rest in
      (st2, resp :: resps)
  end.

(** Validation as the specification words it: every mandatory text field
    is non-empty once white space is ignored. *)
Definition spec_Validate (payload : Request) : bool :=
  negb (blank (GigTitle payload) || blank (Client payload)
        || blank (Email payload)).

End Basic.

(** ** The supplier-aware variant ([src/unnamed/part_000]) *)
Module Supplier.

Record Request : Type := mkRequest {
  ID : Z;
  GigTitle : string;
  Client : string;
  ClientEmail : string;
  SupplierEmail : string;
  Details : string;
  CreatedAt : Time
}.

Definition set_ID (r : Request) (id : Z) : Request :=
  mkRequest id (GigTitle r) (Client r) (ClientEmail r) (SupplierEmail r)
            (Details r) (CreatedAt r).

Definition set_CreatedAt (r : Request) (t : Time) : Request :=
  mkRequest (ID r) (GigTitle r) (Client r) (ClientEmail r) (SupplierEmail r)
            (Details r) t.

Record Store : Type := mkStore {
  requests : slice Request;
  nextID : Z
}.

Definition init : Store := mkStore (mk_slice []) 1.

(** One iteration of the [range] loop of [listRequests]. *)
Definition filter_step (supplierEmailFilter : string)
    (filteredRequests : slice Request) (req : Request) : slice Request :=
  if SupplierEmail req =? supplierEmailFilter
  then append filteredRequests req
  else filteredRequests.

(** The value of the variable [filteredRequests] when [listRequests]
    encodes it. *)
Definition filteredRequests (requests : slice Request)
    (supplierEmailFilter : string) : slice Request :=
  if negb (supplierEmailFilter =? "") then
    fold_left (filter_step supplierEmailFilter) (elems requests) nil_slice
  else requests.

Definition listRequests (st : Store) (r : HttpRequest Request)
  : Store * Response Request :=
  let supplierEmailFilter := supplier_email_param r in
  (st, mkResponse StatusOK
         (JsonList (filteredRequests (requests st) supplierEmailFilter))).

(** The condition of the "Basic Validation" [if]. *)
Definition missing_required (newRequest : Request) : bool :=
  (GigTitle newRequest =? "") || (Client newRequest =? "")
  || (ClientEmail newRequest =? "") || (SupplierEmail newRequest =? "").

(** The four assignments between [mu.Lock()] and [mu.Unlock()]. *)
Definition assign_ID (st : Store) (newRequest : Request) : Request :=
  set_ID newRequest (nextID st).
Definition assign_CreatedAt (now : Time) (newRequest : Request) : Request :=
  set_CreatedAt newRequest now.
Definition append_request (st : Store) (newRequest : Request) : Store :=
  mkStore (append (requests st) newRequest) (nextID st).
Definition incr_nextID (st : Store) : Store :=
  mkStore (requests st) (wrap_int (nextID st + 1)).

Definition createRequest (st : Store) (now : Time) (r : HttpRequest Request)
  : Store * Response Request :=
  match Body r with
  | DecodeError err =>
      (st, http_Error ("Invalid request body: " ++ err)%string StatusBadRequest)
  | DecodeOk newRequest =>
      if missing_required newRequest then
        (st, http_Error
               "Missing required fields (gig_title, client, client_email, supplier_email)"
               StatusBadRequest)
      else
        let newRequest := assign_ID st newRequest in
        let newRequest := assign_CreatedAt now newRequest in
        let st := append_request st newRequest in
        let st := incr_nextID st in
        (st, mkResponse StatusCreated (JsonOne newRequest))
  end.

Definition RequestsHandler (st : Store) (now : Time) (r : HttpRequest Request)
  : Store * Response Request :=
  if Method r =? "GET" then listRequests st r
  else if Method r =? "POST" then createRequest st now r
  else (st, http_Error "Method not allowed" StatusMethodNotAllowed).

Definition CORSHandler
    (next : Store -> Time -> HttpRequest Request -> Store * Response Request)
    (st : Store) (now : Time) (r : HttpRequest Request)
  : Store * Response Request :=
  if Method r =? "OPTIONS" then (st, mkResponse StatusOK NoBody)
  else next st now r.

Definition serve := CORSHandler RequestsHandler.

Fixpoint run (st : Store) (ins : list (Time * HttpRequest Request))
  : Store * list (Response Request) :=
  match ins with
  | [] => (st, [])
  | (now, r) :: rest =>
      let '(st1, resp) := serve st now r in
      let '(st2, resps) := run st1 rest in
      (st2, resp :: resps)
  end.

(** The filter predicate as the specification words it: everything
    matches an empty filter, otherwise the supplier field must equal the
    filter. *)
Definition spec_MatchesFilter (r : Request) (supplierEmailFilter : string)
  : bool :=
  if supplierEmailFilter =? "" then true
  else SupplierEmail r =? supplierEmailFilter.

(** The store is consistent when the counter is one past the number of
    records and the record at index [k] has id [k + 1] (in [int]
    arithmetic). *)
Definition consistent (st : Store) : Prop :=
  nextID st = wrap_int (Z.of_nat (len (requests st)) + 1)
  /\ forall (k : nat) (r : Request),
       elems (requests st) !! k = Some r -> ID r = wrap_int (Z.of_nat k + 1).

(** Validation as the specification words it: every mandatory text field
    is non-empty once white space is ignored. *)
Definition spec_Validate (payload : Request) : bool :=
  negb (blank (GigTitle payload) || blank (Client payload)
        || blank (ClientEmail payload) || blank (SupplierEmail payload)).

End Supplier.

(** ** Concurrent execution of the supplier-aware handlers

    [net/http] runs every request in a goroutine of its own.  A goroutine is
    modelled by the request it serves and its position in the handler, one
    position per statement that touches [mu], [requests] or [nextID]; the
    goroutines' steps interleave, and [mu.Lock()] can only be taken when the
    mutex is free. *)
Module Concurrent.
Import Supplier.

Inductive pc : Type :=
| Start
  (* createRequest *)
| CreateLock (newRequest : Request)        (* at [mu.Lock()] *)
| CreateAssignID (newRequest : Request)    (* at [newRequest.ID = nextID] *)
| CreateAssignTime (newRequest : Request)  (* at [newRequest.CreatedAt = time.Now()] *)
| CreateAppend (newRequest : Request)      (* at [requests = append(requests, newRequest)] *)
| CreateIncr (newRequest : Request)        (* at [nextID++] *)
| CreateUnlock (newRequest : Request)      (* at [mu.Unlock()] *)
| CreateRespond (newRequest : Request)     (* logging and encoding the answer *)
  (* listRequests *)
| ListLock (supplierEmailFilter : string)  (* at [mu.Lock()] *)
| ListIf (supplierEmailFilter : string)    (* at [if supplierEmailFilter != ""] *)
| ListRange (supplierEmailFilter : string) (rest : list Request)
            (filtered : slice Request)     (* in the [range] loop *)
| ListEncode (filtered : slice Request)    (* at [Encode(filteredRequests)] *)
| ListUnlock (filtered : slice Request)    (* returning: the deferred [mu.Unlock()] *)
| Finished (resp : Response Request).

Record goroutine : Type := mkG {
  g_req : HttpRequest Request;
  g_pc : pc
}.

Record World : Type := mkWorld {
  store : Store;
  locked : bool;               (* the state of [mu] *)
  pool : list goroutine
}.

Definition init_world : World := mkWorld init false [].

(** The first step of a goroutine: [CORSHandler], [RequestsHandler] and
    the part of the handler before [mu.Lock()], none of which reads the
    shared variables. *)
Definition dispatch (r : HttpRequest Request) : pc :=
  if Method r =? "OPTIONS" then Finished (mkResponse StatusOK NoBody)
  else if Method r =? "GET" then ListLock (supplier_email_param r)
  else if Method r =? "POST" then
    match Body r with
    | DecodeError err =>
        Finished (http_Error ("Invalid request body: " ++ err)%string StatusBadRequest)
    | DecodeOk newRequest =>
        if missing_required newRequest then
          Finished (http_Error
            "Missing required fields (gig_title, client, client_email, supplier_email)"
            StatusBadRequest)
        else CreateLock newRequest
    end
  else Finished (http_Error "Method not allowed" StatusMethodNotAllowed).

(** One step of a goroutine on the shared state; [None] when it cannot
    move: it waits for the mutex, or it has returned.  ([Unlock] of a free
    mutex is a fatal error of the runtime; it has no successor here.) *)
Definition go_step (now : Time) (g : goroutine) (st : Store) (lk : bool)
  : option (pc * Store * bool) :=
  match g_pc g with
  | Start => Some (dispatch (g_req g), st, lk)
  | CreateLock nr => if lk then None else Some (CreateAssignID nr, st, true)
  | CreateAssignID nr => Some (CreateAssignTime (assign_ID st nr), st, lk)
  | CreateAssignTime nr => Some (CreateAppend (assign_CreatedAt now nr), st, lk)
  | CreateAppend nr => Some (CreateIncr nr, append_request st nr, lk)
  | CreateIncr nr => Some (CreateUnlock nr, incr_nextID st, lk)
  | CreateUnlock nr => if lk then Some (CreateRespond nr, st, false) else None
  | CreateRespond nr =>
      Some (Finished (mkResponse StatusCreated (JsonOne nr)), st, lk)
  | ListLock f => if lk then None else Some (ListIf f, st, true)
  | ListIf f =>
      if negb (f =? "") then Some (ListRange f (elems (requests st)) nil_slice, st, lk)
      else Some (ListEncode (requests st), st, lk)
  | ListRange f [] filtered => Some (ListEncode filtered, st, lk)
  | ListRange f (req :: rest) filtered =>
      Some (ListRange f rest (filter_step f filtered req), st, lk)
  | ListEncode filtered => Some (ListUnlock filtered, st, lk)
  | ListUnlock filtered =>
      if lk then Some (Finished (mkResponse StatusOK (JsonList filtered)), st, false)
      else None
  | Finished _ => None
  end.

(** What happens next: a request arrives and gets its goroutine, or the
    scheduler lets goroutine [i] take one step ([now] is what the clock
    shows at that moment). *)
Inductive label : Type :=
| Spawn (r : HttpRequest Request)
| Sched (i : nat) (now : Time).

Definition world_step (w : World) (l : label) : option World :=
  match l with
  | Spawn r => Some (mkWorld (store w) (locked w) (pool w ++ [mkG r Start]))
  | Sched i now =>
      match pool w !! i with
      | None => None
      | Some g =>
          match go_step now g (store w) (locked w) with
          | None => None
          | Some (p, st, lk) =>
              Some (mkWorld st lk (<[i := mkG (g_req g) p]> (pool w)))
          end
      end
  end.

Fixpoint exec (w : World) (ls : list label) : option World :=
  match ls with
  | [] => Some w
  | l :: ls' =>
      match world_step w l with
      | None => None
      | Some w' => exec w' ls'
      end
  end.

(** Positions between [mu.Lock()] and [mu.Unlock()]. *)
Definition in_cs (p : pc) : bool :=
  match p with
  | CreateAssignID _ | CreateAssignTime _ | CreateAppend _ | CreateIncr _
  | CreateUnlock _ | ListIf _ | ListRange _ _ _ | ListEncode _ | ListUnlock _ => true
  | _ => false
  end.

(** Positions inside the critical section of [createRequest]. *)
Definition in_create_cs (p : pc) : bool :=
  match p with
  | CreateAssignID _ | CreateAssignTime _ | CreateAppend _ | CreateIncr _
  | CreateUnlock _ => true
  | _ => false
  end.

(** An operation of the sequential history: which goroutine, and the
    input on which the one-at-a-time server [Supplier.serve] runs it. *)
Record lin_op : Type := mkOp {
  op_tid : nat;
  op_now : Time;
  op_req : HttpRequest Request
}.

Definition op_input (o : lin_op) : Time * HttpRequest Request :=
  (op_now o, op_req o).

(** The step at which an operation takes effect: for a creation the
    append, for a listing the unlock, for a request answered without
    the store its only step. *)
Definition lin_point (w : World) (l : label) : option lin_op :=
  match l with
  | Spawn _ => None
  | Sched i now =>
      match pool w !! i with
      | None => None
      | Some g =>
          match g_pc g with
          | Start =>
              match dispatch (g_req g) with
              | Finished _ => Some (mkOp i now (g_req g))
              | _ => None
              end
          | CreateAppend nr => Some (mkOp i (CreatedAt nr) (g_req g))
          | ListUnlock _ => Some (mkOp i now (g_req g))
          | _ => None
          end
      end
  end.

(** The operations of an execution in the order they took effect. *)
Fixpoint linearization (w : World) (ls : list label) : list lin_op :=
  match ls with
  | [] => []
  | l :: ls' =>
      match world_step w l with
      | None => []
      | Some w' => option_list (lin_point w l) ++ linearization w' ls'
      end
  end.

Definition is_incr (p : pc) : bool :=
  match p with
  | CreateIncr _ => true
  | _ => false
  end.

Definition pending_incr (w : World) : bool :=
  existsb (fun g => is_incr (g_pc g)) (pool w).

(** The store as the sequential history has it: a creation that has
    appended its record but not yet advanced the counter has taken
    effect. *)
Definition abs (w : World) : Store :=
  if pending_incr w then incr_nextID (store w) else store w.

(** An upper bound on the number of steps a goroutine at position [p] still
    takes when it runs alone on store [st]. *)
Definition steps_left (st : Store) (p : pc) : nat :=
  match p with
  | Start => len (requests st) + 9
  | CreateLock _ => 7
  | CreateAssignID _ => 6
  | CreateAssignTime _ => 5
  | CreateAppend _ => 4
  | CreateIncr _ => 3
  | CreateUnlock _ => 2
  | CreateRespond _ => 1
  | ListLock _ => len (requests st) + 5
  | ListIf _ => len (requests st) + 4
  | ListRange _ rest _ => length rest + 3
  | ListEncode _ => 2
  | ListUnlock _ => 1
  | Finished _ => 0
  end.

(** The creation served by a goroutine at position [p] has left its
    critical section, having stored [rec]. *)
Definition append_completed (p : pc) (rec : Request) : Prop :=
  p = CreateRespond rec
  \/ p = Finished (mkResponse StatusCreated (JsonOne rec)).

(** The goroutine in a slot of the pool has not started its operation on
    the store: it has not arrived yet, or it is still before [mu.Lock()]. *)
Definition not_started (slot : option goroutine) : Prop :=
  match slot with
  | None => True
  | Some g =>
      match g_pc g with
      | Start | CreateLock _ | ListLock _ => True
      | _ => False
      end
  end.

(** *** Invariants of the concurrent executions *)

(** The mutex is held exactly when some goroutine is inside a critical
    section, and then by one goroutine only. *)
Definition mutex_ok (w : World) : Prop :=
  (locked w = false ->
   forall (j : nat) (g : goroutine), pool w !! j = Some g -> in_cs (g_pc g) = false)
  /\ (locked w = true ->
      exists (h : nat) (gh : goroutine),
        pool w !! h = Some gh /\ in_cs (g_pc gh) = true
        /\ forall (j : nat) (g : goroutine),
             pool w !! j = Some g -> in_cs (g_pc g) = true -> j = h).

(** What the local variables of a goroutine hold at each position, in
    terms of its request and of the shared store. *)
Definition pc_ok (st : Store) (g : goroutine) : Prop :=
  match g_pc g with
  | Start | Finished _ | CreateIncr _ | CreateUnlock _ | CreateRespond _ => True
  | CreateLock nr | CreateAssignID nr => dispatch (g_req g) = CreateLock nr
  | CreateAssignTime nr =>
      exists p, dispatch (g_req g) = CreateLock p /\ nr = assign_ID st p
  | CreateAppend nr =>
      exists p, dispatch (g_req g) = CreateLock p
                /\ nr = assign_CreatedAt (CreatedAt nr) (assign_ID st p)
  | ListLock f | ListIf f => dispatch (g_req g) = ListLock f
  | ListRange f rest filtered =>
      dispatch (g_req g) = ListLock f /\ f <> ""
      /\ exists seen, elems (requests st) = seen ++ rest
                      /\ filtered = fold_left (filter_step f) seen nil_slice
  | ListEncode filtered | ListUnlock filtered =>
      exists f, dispatch (g_req g) = ListLock f
                /\ filtered = filteredRequests (requests st) f
  end.

(** Goroutine [i], serving [r], is an operation of the sequential history
    [lin], and [resp] is the answer it gets there. *)
Definition linearized_as (lin : list lin_op) (resps : list (Response Request))
    (i : nat) (r : HttpRequest Request) (resp : Response Request) : Prop :=
  exists (k : nat) (o : lin_op),
    lin !! k = Some o /\ op_tid o = i /\ op_req o = r /\ resps !! k = Some resp.

(** A goroutine past its linearization point is in the history with the
    answer it will give (or gave); one before it is not in the history. *)
Definition lin_ok (lin : list lin_op) (resps : list (Response Request))
    (i : nat) (g : goroutine) : Prop :=
  match g_pc g with
  | CreateIncr nr | CreateUnlock nr | CreateRespond nr =>
      linearized_as lin resps i (g_req g) (mkResponse StatusCreated (JsonOne nr))
  | Finished resp => linearized_as lin resps i (g_req g) resp
  | _ => i ∉ op_tid <$> lin
  end.

(** The sequential history: the one-at-a-time server on the operations in
    the order they took effect. *)
Definition history (lin : list lin_op) : Store * list (Response Request) :=
  run init (map op_input lin).

Record Inv (w : World) (lin : list lin_op) : Prop := mkInv {
  inv_mutex : mutex_ok w;
  inv_pc : forall (i : nat) (g : goroutine),
      pool w !! i = Some g -> pc_ok (store w) g;
  inv_abs : fst (history lin) = abs w;
  inv_lin : forall (i : nat) (g : goroutine),
      pool w !! i = Some g -> lin_ok lin (snd (history lin)) i g;
  inv_nodup : NoDup (op_tid <$> lin);
  inv_tids : forall o : lin_op, o ∈ lin -> (op_tid o < length (pool w))%nat
}.

End Concurrent.

(** ** What the handlers do to the response writer

    The handlers once more, now with every call they make on
    [http.ResponseWriter] and on the logger, in the order of the source.
    Whether the JSON encoder manages to write is an input ([enc_ok]). *)

Definition StatusInternalServerError : Z := 500.

Inductive log_entry : Type :=
| LogEncodingError                              (* "Error encoding response: %v" *)
| LogCreated (id : Z) (texts : list string).    (* "New request created: ID %d, Title: %s ..." *)

Inductive call (R : Type) : Type :=
| HeaderSet (key value : string)        (* [w.Header().Set(key, value)] *)
| WriteHeader (code : Z)                (* [w.WriteHeader(code)] *)
| Encode (v : Payload R)                (* [json.NewEncoder(w).Encode(v)] *)
| HttpError (msg : string) (code : Z)   (* [http.Error(w, msg, code)] *)
| LogPrintf (e : log_entry).            (* [log.Printf(...)] *)
Arguments HeaderSet {R} key value.
Arguments WriteHeader {R} code.
Arguments Encode {R} v.
Arguments HttpError {R} msg code.
Arguments LogPrintf {R} e.

(** The headers [CORSHandler] sets on every response. *)
Definition cors_headers {R} : list (call R) :=
  [HeaderSet "Access-Control-Allow-Origin" "*";
   HeaderSet "Access-Control-Allow-Methods" "GET, POST, OPTIONS";
   HeaderSet "Access-Control-Allow-Headers" "Content-Type"].



(** The code of the first call that writes the status line. *)
Fixpoint status_of {R} (cs : list (call R)) : option Z :=
  match cs with
  | [] => None
  | WriteHeader code :: _ => Some code
  | HttpError _ code :: _ => Some code
  | _ :: cs' => status_of cs'
  end.

(** The first value handed to [http.Error] or to the encoder. *)
Fixpoint body_of {R} (cs : list (call R)) : Payload R :=
  match cs with
  | [] => NoBody
  | HttpError msg _ :: _ => Text msg
  | Encode v :: _ => v
  | _ :: cs' => body_of cs'
  end.


Module BasicWire.
Import Basic.

Definition listRequests (st : Store) (enc_ok : bool) (r : HttpRequest Request)
  : Store * list (call Request) :=
  (st,
   [HeaderSet "Content-Type" "application/json"; WriteHeader StatusOK;
    Encode (JsonList (requests st))]
   ++ (if enc_ok then []
       else [LogPrintf LogEncodingError;
             HttpError "Internal Server Error" StatusInternalServerError])).

Definition createRequest (st : Store) (now : Time) (enc_ok : bool)
    (r : HttpRequest Request) : Store * list (call Request) :=
  match Body r with
  | DecodeError err =>
      (st, [HttpError ("Invalid request body: " ++ err)%string StatusBadRequest])
  | DecodeOk newRequest =>
      if missing_required newRequest then
        (st, [HttpError "Missing required fields (gig_title, client, email)"
                        StatusBadRequest])
      else
        let newRequest := set_ID newRequest (nextID st) in
        let newRequest := set_CreatedAt newRequest now in
        let st := mkStore (append (requests st) newRequest) (nextID st) in
        let st := mkStore (requests st) (wrap_int (nextID st + 1)) in
        (st,
         [LogPrintf (LogCreated (ID newRequest) [GigTitle newRequest]);
          HeaderSet "Content-Type" "application/json";
          WriteHeader StatusCreated; Encode (JsonOne newRequest)]
         ++ (if enc_ok then [] else [LogPrintf LogEncodingError]))
  end.

Definition RequestsHandler (st : Store) (now : Time) (enc_ok : bool)
    (r : HttpRequest Request) : Store * list (call Request) :=
  if Method r =? "GET" then listRequests st enc_ok r
  else if Method r =? "POST" then createRequest st now enc_ok r
  else (st, [HttpError "Method not allowed" StatusMethodNotAllowed]).

Definition CORSHandler
    (next : Store -> Time -> bool -> HttpRequest Request
            -> Store * list (call Request))
    (st : Store) (now : Time) (enc_ok : bool) (r : HttpRequest Request)
  : Store * list (call Request) :=
  let '(st', cs) :=
    if Method r =? "OPTIONS" then (st, [WriteHeader StatusOK])
    else next st now enc_ok r in
  (st', cors_headers ++ cs).

Definition serve := CORSHandler RequestsHandler.

End BasicWire.

Module SupplierWire.
Import Supplier.

Definition listRequests (st : Store) (enc_ok : bool) (r : HttpRequest Request)
  : Store * list (call Request) :=
  let supplierEmailFilter := supplier_email_param r in
  (st,
   [HeaderSet "Content-Type" "application/json"; WriteHeader StatusOK;
    Encode (JsonList (filteredRequests (requests st) supplierEmailFilter))]
   ++ (if enc_ok then []
       else [LogPrintf LogEncodingError;
             HttpError "Internal Server Error" StatusInternalServerError])).

Definition createRequest (st : Store) (now : Time) (enc_ok : bool)
    (r : HttpRequest Request) : Store * list (call Request) :=
  match Body r with
  | DecodeError err =>
      (st, [HttpError ("Invalid request body: " ++ err)%string StatusBadRequest])
  | DecodeOk newRequest =>
      if missing_required newRequest then
        (st, [HttpError
                "Missing required fields (gig_title, client, client_email, supplier_email)"
                StatusBadRequest])
      else
        let newRequest := assign_ID st newRequest in
        let newRequest := assign_CreatedAt now newRequest in
        let st := append_request st newRequest in
        let st := incr_nextID st in
        (st,
         [LogPrintf (LogCreated (ID newRequest)
                       [GigTitle newRequest; SupplierEmail newRequest]);
          HeaderSet "Content-Type" "application/json";
          WriteHeader StatusCreated; Encode (JsonOne newRequest)]
         ++ (if enc_ok then [] else [LogPrintf LogEncodingError]))
  end.

Definition RequestsHandler (st : Store) (now : Time) (enc_ok : bool)
    (r : HttpRequest Request) : Store * list (call Request) :=
  if Method r =? "GET" then listRequests st enc_ok r
  else if Method r =? "POST" then createRequest st now enc_ok r
  else (st, [HttpError "Method not allowed" StatusMethodNotAllowed]).

Definition CORSHandler
    (next : Store -> Time -> bool -> HttpRequest Request
            -> Store * list (call Request))
    (st : Store) (now : Time) (enc_ok : bool) (r : HttpRequest Request)
  : Store * list (call Request) :=
  let '(st', cs) :=
    if Method r =? "OPTIONS" then (st, [WriteHeader StatusOK])
    else next st now enc_ok r in
  (st', cors_headers ++ cs).

Definition serve := CORSHandler RequestsHandler.

End SupplierWire.

(** ** Which requests write *)

Module BasicInv.
Import Basic.

(** The store is consistent when the counter is one past the number of
    records and the record at index [k] has id [k + 1] (in [int]
    arithmetic). *)
Definition consistent (st : Store) : Prop :=
  nextID st = wrap_int (Z.of_nat (len (requests st)) + 1)
  /\ forall (k : nat) (r : Request),
       elems (requests st) !! k = Some r -> ID r = wrap_int (Z.of_nat k + 1).

(** The requests that reach the critical section of [createRequest]: a
    POST whose body decodes to a payload with every mandatory field. *)
Definition is_creation (r : HttpRequest Request) : bool :=
  (Method r =? "POST")
  && match Body r with
     | DecodeError _ => false
     | DecodeOk p => negb (missing_required p)
     end.

End BasicInv.

Module SupplierInv.
Import Supplier.

Definition is_creation (r : HttpRequest Request) : bool :=
  (Method r =? "POST")
  && match Body r with
     | DecodeError _ => false
     | DecodeOk p => negb (missing_required p)
     end.

End SupplierInv.

(** ** The clock along a schedule *)
Module Schedule.
Import Concurrent.

(** The clock readings of the steps of a schedule, in order. *)
Fixpoint clock_of (ls : list label) : list Time :=
  match ls with
  | [] => []
  | Spawn _ :: ls' => clock_of ls'
  | Sched _ now :: ls' => now :: clock_of ls'
  end.

(** Creation times are in order in the store, none is later than [t], and
    a goroutine about to append holds a time that is neither later than
    [t] nor earlier than a stored one. *)
Definition times_ok (w : World) (t : Time) : Prop :=
  StronglySorted Z.le (map Supplier.CreatedAt (elems (Supplier.requests (store w))))
  /\ (forall x, x ∈ elems (Supplier.requests (store w)) ->
                Supplier.CreatedAt x <= t)
  /\ (forall i g nr,
        pool w !! i = Some g -> g_pc g = CreateAppend nr ->
        Supplier.CreatedAt nr <= t
        /\ forall x, x ∈ elems (Supplier.requests (store w)) ->
                      Supplier.CreatedAt x <= Supplier.CreatedAt nr).

End Schedule.

(** ** Start-up: the address [main] listens on *)
Module Startup.

(** [src/main.go]: the port is fixed. *)
Definition fixed_port : string := ":8080".

(** [src/unnamed/part_000]: the port comes from the environment variable
    [PORT] ([os.Getenv] gives the empty string when it is not set), with
    8080 as the fallback, and gets the colon [ListenAndServe] wants. *)
Definition listenAddr (env_PORT : string) : string :=
  let port := env_PORT in
  let port := if port =? "" then "8080" else port in
  (":" ++ port)%string.

End Startup.

(** * Properties of the sequential handlers *)

Section SliceFacts.
Context {A : Type}.

Lemma elems_append (s : slice A) (x : A) : elems (append s x) = elems s ++ [x].
Proof. reflexivity. Qed.

Lemma len_append (s : slice A) (x : A) : len (append s x) = S (len s).
Proof. unfold len. rewrite elems_append, length_app. simpl. lia. Qed.

End SliceFacts.

Lemma wrap_int_small (z : Z) : min_int <= z <= max_int -> wrap_int z = z.
Proof.
  unfold min_int, max_int, wrap_int, int_bits. intros Hz.
  rewrite Z.mod_small; lia.
Qed.

Lemma wrap_int_succ_neq (z : Z) : wrap_int (z + 1) <> z.
Proof.
  unfold wrap_int, int_bits. intros H.
  pose proof (Z.mod_eq (z + 1 + 2 ^ (64 - 1)) (2 ^ 64) ltac:(lia)) as E.
  remember ((z + 1 + 2 ^ (64 - 1)) / 2 ^ 64) as q. lia.
Qed.

Lemma string_eqb_empty (s : string) : (s =? "") = true <-> s = "".
Proof. apply String.eqb_eq. Qed.

Lemma string_eqb_nonempty (s : string) : s <> "" -> (s =? "") = false.
Proof. intros H. apply String.eqb_neq. exact H. Qed.

Module SupplierFacts.
Import Supplier.

(** The loop of [listRequests] keeps what it had and adds the matching
    records in the order it meets them. *)
Lemma filter_loop (f : string) (l : list Request) (acc : slice Request) :
  elems (fold_left (filter_step f) l acc)
  = elems acc ++ filter (fun r => SupplierEmail r = f) l.
Proof.
  revert acc. induction l as [|x l IH]; intros acc; simpl.
  - by rewrite app_nil_r.
  - rewrite IH. unfold filter_step.
    destruct (String.eqb_spec (SupplierEmail x) f) as [E|E].
    + rewrite filter_cons_True by done. rewrite elems_append.
      by rewrite <- app_assoc.
    + by rewrite filter_cons_False.
Qed.

Lemma filteredRequests_nonempty (reqs : slice Request) (f : string) :
  f <> "" ->
  elems (filteredRequests reqs f) = filter (fun r => SupplierEmail r = f) (elems reqs).
Proof.
  intros Hf. unfold filteredRequests. rewrite string_eqb_nonempty by done.
  simpl. by rewrite filter_loop.
Qed.

Lemma filteredRequests_empty (reqs : slice Request) :
  filteredRequests reqs "" = reqs.
Proof. reflexivity. Qed.

Lemma filteredRequests_spec (reqs : slice Request) (f : string) :
  elems (filteredRequests reqs f)
  = filter (fun r => spec_MatchesFilter r f = true) (elems reqs).
Proof.
  destruct (String.eqb_spec f "") as [->|Hf].
  - rewrite filteredRequests_empty. symmetry.
    induction (elems reqs) as [|x l IH]; [done|].
    rewrite filter_cons_True by done. by rewrite IH.
  - rewrite filteredRequests_nonempty by done.
    apply list_filter_iff. intros r. unfold spec_MatchesFilter.
    rewrite string_eqb_nonempty by done. by rewrite String.eqb_eq.
Qed.

Lemma filteredRequests_sublist (reqs : slice Request) (f : string) :
  elems (filteredRequests reqs f) `sublist_of` elems reqs.
Proof. rewrite filteredRequests_spec. apply sublist_filter. Qed.

End SupplierFacts.

Lemma wrap_int_idemp_succ (z : Z) : wrap_int (wrap_int z + 1) = wrap_int (z + 1).
Proof.
  unfold wrap_int, int_bits.
  replace ((z + 2 ^ (64 - 1)) mod 2 ^ 64 - 2 ^ (64 - 1) + 1 + 2 ^ (64 - 1))
    with ((z + 2 ^ (64 - 1)) mod 2 ^ 64 + 1) by lia.
  rewrite Zplus_mod_idemp_l. f_equal. f_equal. lia.
Qed.

Lemma created_cons {R} (resp : Response R) (rs : list (Response R)) :
  created (resp :: rs) = created [resp] ++ created rs.
Proof. unfold created. simpl. by destruct (Content resp), (Status resp =? StatusCreated)%Z. Qed.

Module SupplierRun.
Import Supplier SupplierFacts.

(** A request either leaves the store as it is and creates nothing, or it
    is a valid creation, which runs the four assignments. *)
Lemma serve_cases (st : Store) (now : Time) (r : HttpRequest Request) :
  (exists resp, serve st now r = (st, resp) /\ created [resp] = [])
  \/ (exists payload,
        Body r = DecodeOk payload /\ missing_required payload = false /\
        let nr := assign_CreatedAt now (assign_ID st payload) in
        serve st now r
        = (incr_nextID (append_request st nr),
           mkResponse StatusCreated (JsonOne nr))).
Proof.
  unfold serve, CORSHandler, RequestsHandler, listRequests, createRequest.
  destruct (Method r =? "OPTIONS"); [left; eauto|].
  destruct (Method r =? "GET"); [left; eauto|].
  destruct (Method r =? "POST"); [|left; eauto].
  destruct (Body r) as [err|payload]; [left; eauto|].
  destruct (missing_required payload) eqn:Hm; [left; eauto|].
  right. exists payload. auto.
Qed.

Lemma consistent_init : consistent init.
Proof. split; [reflexivity|]. intros k r H. by destruct k. Qed.

Lemma consistent_create (st : Store) (now : Time) (payload : Request) :
  consistent st ->
  consistent (incr_nextID (append_request st
                (assign_CreatedAt now (assign_ID st payload)))).
Proof.
  intros [Hn Hid]. split.
  - simpl. rewrite len_append, Hn, wrap_int_idemp_succ. f_equal. lia.
  - intros k r. simpl. intros Hk.
    apply lookup_app_Some in Hk as [Hk|[Hlen Hk]]; [by apply Hid|].
    apply list_lookup_singleton_Some in Hk as [Hk <-]. simpl.
    rewrite Hn. f_equal. unfold len. lia.
Qed.

Lemma run_created (ins : list (Time * HttpRequest Request)) :
  forall (st st' : Store) (resps : list (Response Request)),
    run st ins = (st', resps) ->
    consistent st ->
    consistent st'
    /\ elems (requests st') = elems (requests st) ++ created resps
    /\ length resps = length ins.
Proof.
  induction ins as [|[now r] ins IH]; intros st st' resps Hrun Hc; simpl in Hrun.
  - inversion Hrun; subst. by rewrite app_nil_r.
  - destruct (serve st now r) as [st1 resp] eqn:Hs.
    destruct (run st1 ins) as [st2 resps2] eqn:Hr.
    inversion Hrun; subst. rewrite created_cons.
    destruct (serve_cases st now r) as [(resp' & E & Hnone)|(payload & _ & _ & E)].
    + rewrite E in Hs. inversion Hs; subst.
      destruct (IH _ _ _ Hr Hc) as (? & ? & ?).
      rewrite Hnone. simpl. auto.
    + simpl in E. rewrite E in Hs. inversion Hs; subst. clear Hs.
      destruct (IH _ _ _ Hr (consistent_create _ now payload Hc)) as (? & Hel & ?).
      split; [done|]. split; [|simpl; lia].
      rewrite Hel. simpl. by rewrite <- app_assoc.
Qed.

(** On a store small enough for [int], consistency reads without wrap-around. *)
Lemma consistent_ids (st : Store) :
  consistent st ->
  Z.of_nat (len (requests st)) < max_int ->
  nextID st = Z.of_nat (len (requests st)) + 1
  /\ map ID (elems (requests st)) = map Z.of_nat (seq 1 (len (requests st)))
  /\ forall (k : nat) (r : Request),
       elems (requests st) !! k = Some r -> ID r = Z.of_nat k + 1.
Proof.
  intros [Hn Hid] Hb.
  assert (Hk : forall (k : nat) r, elems (requests st) !! k = Some r ->
                                   ID r = Z.of_nat k + 1).
  { intros k r Hk. rewrite (Hid _ _ Hk).
    apply lookup_lt_Some in Hk. unfold len in Hb.
    apply wrap_int_small. unfold min_int, max_int, int_bits in *. lia. }
  split; [|split; [|done]].
  - rewrite Hn. apply wrap_int_small.
    unfold min_int, max_int, int_bits in *. lia.
  - apply list_eq. intros k. rewrite !list_lookup_fmap.
    destruct (elems (requests st) !! k) as [r|] eqn:E; simpl.
    + rewrite (Hk _ _ E). apply lookup_lt_Some in E.
      rewrite lookup_seq_lt by (unfold len; lia). simpl. f_equal. lia.
    + apply lookup_ge_None in E. rewrite lookup_seq_ge by (unfold len; lia). done.
Qed.

End SupplierRun.

(** * The claims about the sequential store *)

(** C1.  After any sequence of requests served from the empty store, of
    which [N] are successful creations (rejected creations, listings and
    other requests interleaved at will; [N] below the largest [int]), the
    ids of the stored records are exactly 1, 2, ..., N in that order, the
    record with id [k] is the [k]-th element of the collection, and the
    next-id counter is [N + 1].  Besides, every single request changes the
    counter exactly when it changes the collection, and then the collection
    has grown by one record. *)
Theorem ids_exact_and_counter_in_step
    (ins : list (Time * HttpRequest Supplier.Request))
    (st : Supplier.Store) (resps : list (Response Supplier.Request)) (N : nat) :
  Supplier.run Supplier.init ins = (st, resps) ->
  N = length (created resps) ->
  Z.of_nat N < max_int ->
  len (Supplier.requests st) = N
  /\ map Supplier.ID (elems (Supplier.requests st)) = map Z.of_nat (seq 1 N)
  /\ (forall r : Supplier.Request,
        r ∈ elems (Supplier.requests st) ->
        1 <= Supplier.ID r <= Z.of_nat N
        /\ elems (Supplier.requests st) !! Z.to_nat (Supplier.ID r - 1) = Some r)
  /\ Supplier.nextID st = Z.of_nat N + 1
  /\ (forall (st0 : Supplier.Store) (now : Time)
             (r : HttpRequest Supplier.Request),
        let st1 := fst (Supplier.serve st0 now r) in
        (Supplier.nextID st1 = Supplier.nextID st0
         /\ Supplier.requests st1 = Supplier.requests st0)
        \/ (Supplier.nextID st1 = wrap_int (Supplier.nextID st0 + 1)
            /\ Supplier.nextID st1 <> Supplier.nextID st0
            /\ exists rec : Supplier.Request,
                 Supplier.ID rec = Supplier.nextID st0
                 /\ Supplier.requests st1
                    = mk_slice (elems (Supplier.requests st0) ++ [rec]))).
Proof.
  intros Hrun HN Hb.
  destruct (SupplierRun.run_created ins _ _ _ Hrun SupplierRun.consistent_init)
    as (Hc & Hel & _).
  simpl in Hel.
  assert (Hlen : len (Supplier.requests st) = N).
  { unfold len. by rewrite Hel. }
  assert (Hsmall : Z.of_nat (len (Supplier.requests st)) < max_int)
    by (by rewrite Hlen).
  destruct (SupplierRun.consistent_ids st Hc Hsmall) as (Hn & Hids & Hk).
  rewrite Hlen in Hn, Hids.
  split; [done|]. split; [done|]. split; [|split; [done|]].
  - intros r Hr. apply list_elem_of_lookup in Hr as [k Hkr].
    pose proof (Hk _ _ Hkr) as Hid.
    pose proof (lookup_lt_Some _ _ _ Hkr) as Hlt. unfold len in Hlen.
    split; [lia|].
    replace (Z.to_nat (Supplier.ID r - 1)) with k by lia. done.
  - intros st0 now r. simpl.
    destruct (SupplierRun.serve_cases st0 now r)
      as [(resp & E & _)|(payload & _ & _ & E)].
    + left. by rewrite E.
    + right. simpl in E. rewrite E. simpl.
      split; [done|]. split; [apply wrap_int_succ_neq|].
      by exists (Supplier.assign_CreatedAt now (Supplier.assign_ID st0 payload)).
Qed.

Lemma ids_exact_and_counter_in_step_witness :
  let mk t s := (5, mkHttpRequest "POST" ""
                      (DecodeOk (Supplier.mkRequest 9 t "Acme" "a@acme.com" s "" 3))) in
  let ins := [mk "Logo" "s1@x.com"; mk "" "s1@x.com";
              (6, mkHttpRequest "GET" "s1@x.com" (DecodeError "EOF"));
              mk "Site" "s2@x.com"] in
  map Supplier.ID (elems (Supplier.requests (fst (Supplier.run Supplier.init ins))))
  = [1; 2]
  /\ Supplier.nextID (fst (Supplier.run Supplier.init ins)) = 3.
Proof.
  intros mk ins.
  destruct (ids_exact_and_counter_in_step ins
              (fst (Supplier.run Supplier.init ins))
              (snd (Supplier.run Supplier.init ins)) 2)
    as (_ & Hids & _ & Hn & _).
  - reflexivity.
  - reflexivity.
  - reflexivity.
  - split; [exact Hids | exact Hn].
Defined.

(** C2.  For a stored record [R] and a non-empty filter [F], [R] is among
    the records that [listRequests] returns for [F] exactly when the
    supplier e-mail of [R] is the string [F] (equality of strings, character
    by character: nothing is trimmed or case-folded); what is returned is
    in fact the stored sequence restricted to the matching records.  With an
    empty (or absent) filter the stored slice itself is returned. *)
Theorem filter_correct
    (st : Supplier.Store) (F : string) (R : Supplier.Request) :
  R ∈ elems (Supplier.requests st) ->
  F <> "" ->
  (R ∈ elems (Supplier.filteredRequests (Supplier.requests st) F)
   <-> Supplier.SupplierEmail R = F)
  /\ elems (Supplier.filteredRequests (Supplier.requests st) F)
     = filter (fun r => Supplier.spec_MatchesFilter r F = true)
              (elems (Supplier.requests st))
  /\ Supplier.filteredRequests (Supplier.requests st) "" = Supplier.requests st
  /\ (forall q : HttpRequest Supplier.Request,
        supplier_email_param q = F ->
        Supplier.listRequests st q
        = (st, mkResponse StatusOK
                 (JsonList (Supplier.filteredRequests (Supplier.requests st) F)))).
Proof.
  intros HR HF. split; [|split; [|split]].
  - rewrite SupplierFacts.filteredRequests_nonempty by done.
    rewrite list_elem_of_filter. tauto.
  - apply SupplierFacts.filteredRequests_spec.
  - reflexivity.
  - intros q <-. reflexivity.
Qed.

Lemma filter_correct_witness :
  let r1 := Supplier.mkRequest 1 "Logo" "Acme" "a@acme.com" "s1@x.com" "" 10 in
  let r2 := Supplier.mkRequest 2 "Site" "Acme" "a@acme.com" "S1@x.com" "" 11 in
  let st := Supplier.mkStore (mk_slice [r1; r2]) 3 in
  (r2 ∈ elems (Supplier.filteredRequests (Supplier.requests st) "s1@x.com")
   <-> Supplier.SupplierEmail r2 = "s1@x.com").
Proof.
  intros r1 r2 st.
  refine (proj1 (filter_correct st "s1@x.com" r2 _ _)).
  - simpl. apply list_elem_of_In. simpl. right. left. reflexivity.
  - discriminate.
Defined.

(** C3.  After any sequence of requests served from the empty store, a
    listing without filter returns the records of the successful creations
    in the order in which these creations were answered, which is the order
    of ascending ids 1, 2, ... (the number of records being below the
    largest [int]); a listing with a filter returns a subsequence of the
    stored sequence, namely the matching records in their stored order. *)
Theorem listing_keeps_creation_order
    (ins : list (Time * HttpRequest Supplier.Request))
    (st : Supplier.Store) (resps : list (Response Supplier.Request))
    (q : HttpRequest Supplier.Request) :
  Supplier.run Supplier.init ins = (st, resps) ->
  Z.of_nat (length (created resps)) < max_int ->
  exists s : slice Supplier.Request,
    Supplier.listRequests st q = (st, mkResponse StatusOK (JsonList s))
    /\ (supplier_email_param q = "" ->
        elems s = created resps
        /\ map Supplier.ID (elems s)
           = map Z.of_nat (seq 1 (length (created resps))))
    /\ elems s `sublist_of` created resps
    /\ elems s = filter (fun r => Supplier.spec_MatchesFilter r
                                    (supplier_email_param q) = true)
                        (created resps).
Proof.
  intros Hrun Hb.
  destruct (SupplierRun.run_created ins _ _ _ Hrun SupplierRun.consistent_init)
    as (Hc & Hel & _).
  simpl in Hel.
  exists (Supplier.filteredRequests (Supplier.requests st) (supplier_email_param q)).
  split; [reflexivity|]. split; [|split].
  - intros ->. rewrite SupplierFacts.filteredRequests_empty.
    split; [done|].
    assert (Hs : Z.of_nat (len (Supplier.requests st)) < max_int).
    { unfold len. by rewrite Hel. }
    destruct (SupplierRun.consistent_ids st Hc Hs) as (_ & Hids & _).
    unfold len in Hids. rewrite Hids. by rewrite Hel.
  - rewrite <- Hel. apply SupplierFacts.filteredRequests_sublist.
  - rewrite <- Hel. apply SupplierFacts.filteredRequests_spec.
Qed.

Lemma listing_keeps_creation_order_witness :
  let mk s := (5, mkHttpRequest "POST" ""
                    (DecodeOk (Supplier.mkRequest 0 "Logo" "Acme" "a@acme.com" s "" 0))) in
  let ins := [mk "s1@x.com"; mk "s2@x.com"] in
  let st := fst (Supplier.run Supplier.init ins) in
  exists s : slice Supplier.Request,
    Supplier.listRequests st (mkHttpRequest "GET" "s1@x.com" (DecodeError "EOF"))
    = (st, mkResponse StatusOK (JsonList s))
    /\ elems s `sublist_of` created (snd (Supplier.run Supplier.init ins)).
Proof.
  intros mk ins st.
  destruct (listing_keeps_creation_order ins st
              (snd (Supplier.run Supplier.init ins))
              (mkHttpRequest "GET" "s1@x.com" (DecodeError "EOF")))
    as (s & H1 & _ & H2 & _).
  - reflexivity.
  - reflexivity.
  - exists s. split; [exact H1 | exact H2].
Defined.

(** C4 fails as stated: a gig title made of one space is blank, so the
    validation of the specification rejects the payload, yet both handlers
    accept it and store the record. *)
Lemma whitespace_only_title_is_accepted :
  Supplier.spec_Validate
    (Supplier.mkRequest 0 " " "Acme" "a@acme.com" "s1@x.com" "" 0) = false
  /\ Supplier.createRequest Supplier.init 7
       (mkHttpRequest "POST" ""
          (DecodeOk (Supplier.mkRequest 0 " " "Acme" "a@acme.com" "s1@x.com" "" 0)))
     = (Supplier.mkStore
          (mk_slice [Supplier.mkRequest 1 " " "Acme" "a@acme.com" "s1@x.com" "" 7]) 2,
        mkResponse StatusCreated
          (JsonOne (Supplier.mkRequest 1 " " "Acme" "a@acme.com" "s1@x.com" "" 7)))
  /\ Basic.spec_Validate (Basic.mkRequest 0 " " "Acme" "a@acme.com" "" 0) = false
  /\ Basic.createRequest Basic.init 7
       (mkHttpRequest "POST" ""
          (DecodeOk (Basic.mkRequest 0 " " "Acme" "a@acme.com" "" 0)))
     = (Basic.mkStore (mk_slice [Basic.mkRequest 1 " " "Acme" "a@acme.com" "" 7]) 2,
        mkResponse StatusCreated
          (JsonOne (Basic.mkRequest 1 " " "Acme" "a@acme.com" "" 7))).
Proof. repeat split. Qed.

(** C4, amended.  The validation of [createRequest] rejects a decoded
    payload exactly when one of the mandatory text fields (gig title,
    client, client e-mail, and the supplier e-mail in the supplier-aware
    variant) is the empty string; the comparison is with the string as it
    was sent, without trimming. *)
Theorem validation_rejects_exactly_empty_fields :
  (forall (st : Supplier.Store) (now : Time) (m q : string)
          (p : Supplier.Request),
     (Supplier.missing_required p = true
      <-> (Supplier.GigTitle p = "" \/ Supplier.Client p = ""
           \/ Supplier.ClientEmail p = "" \/ Supplier.SupplierEmail p = ""))
     /\ (Status (snd (Supplier.createRequest st now (mkHttpRequest m q (DecodeOk p))))
         = StatusBadRequest
         <-> Supplier.missing_required p = true))
  /\ (forall (st : Basic.Store) (now : Time) (m q : string) (p : Basic.Request),
        (Basic.missing_required p = true
         <-> (Basic.GigTitle p = "" \/ Basic.Client p = "" \/ Basic.Email p = ""))
        /\ (Status (snd (Basic.createRequest st now (mkHttpRequest m q (DecodeOk p))))
            = StatusBadRequest
            <-> Basic.missing_required p = true)).
Proof.
  split.
  - intros st now m q p. split.
    + unfold Supplier.missing_required.
      rewrite !orb_true_iff, !string_eqb_empty. tauto.
    + unfold Supplier.createRequest. simpl.
      destruct (Supplier.missing_required p); simpl; split; intros H;
        solve [reflexivity | discriminate H].
  - intros st now m q p. split.
    + unfold Basic.missing_required.
      rewrite !orb_true_iff, !string_eqb_empty. tauto.
    + unfold Basic.createRequest. simpl.
      destruct (Basic.missing_required p); simpl; split; intros H;
        solve [reflexivity | discriminate H].
Qed.

(** C5.  A creation whose decoded payload has an empty mandatory field is
    answered 400 with the message that names the required fields, and the
    store it returns is the store it received: counter and collection are
    untouched, so any listing afterwards answers as before.  The same holds
    for the single-email variant with its three mandatory fields. *)
Theorem rejected_creation_leaves_store
    (st : Supplier.Store) (now : Time) (r : HttpRequest Supplier.Request)
    (p : Supplier.Request) :
  Body r = DecodeOk p ->
  Supplier.GigTitle p = "" \/ Supplier.Client p = ""
  \/ Supplier.ClientEmail p = "" \/ Supplier.SupplierEmail p = "" ->
  Supplier.createRequest st now r
  = (st, http_Error
           "Missing required fields (gig_title, client, client_email, supplier_email)"
           StatusBadRequest)
  /\ (forall q : HttpRequest Supplier.Request,
        Supplier.listRequests (fst (Supplier.createRequest st now r)) q
        = Supplier.listRequests st q)
  /\ (forall (bst : Basic.Store) (bp : Basic.Request) (m q : string),
        Basic.GigTitle bp = "" \/ Basic.Client bp = "" \/ Basic.Email bp = "" ->
        Basic.createRequest bst now (mkHttpRequest m q (DecodeOk bp))
        = (bst, http_Error "Missing required fields (gig_title, client, email)"
                           StatusBadRequest)).
Proof.
  intros HB Hempty.
  assert (Hm : Supplier.missing_required p = true).
  { unfold Supplier.missing_required.
    rewrite !orb_true_iff, !string_eqb_empty. tauto. }
  assert (E : Supplier.createRequest st now r
              = (st, http_Error
                   "Missing required fields (gig_title, client, client_email, supplier_email)"
                   StatusBadRequest)).
  { unfold Supplier.createRequest. by rewrite HB, Hm. }
  split; [exact E|]. split.
  - intros q. by rewrite E.
  - intros bst bp m q Hb. unfold Basic.createRequest. simpl.
    assert (Hbm : Basic.missing_required bp = true).
    { unfold Basic.missing_required.
      rewrite !orb_true_iff, !string_eqb_empty. tauto. }
    by rewrite Hbm.
Qed.

Lemma rejected_creation_leaves_store_witness :
  let st := Supplier.mkStore
              (mk_slice [Supplier.mkRequest 1 "Logo Design" "Acme" "a@acme.com"
                                            "s1@x.com" "" 10]) 2 in
  Supplier.createRequest st 11
    (mkHttpRequest "POST" ""
       (DecodeOk (Supplier.mkRequest 0 "" "Acme" "a@acme.com" "s1@x.com" "" 0)))
  = (st, http_Error
           "Missing required fields (gig_title, client, client_email, supplier_email)"
           StatusBadRequest).
Proof.
  intros st.
  refine (proj1 (rejected_creation_leaves_store st 11 _
                   (Supplier.mkRequest 0 "" "Acme" "a@acme.com" "s1@x.com" "" 0) _ _)).
  - reflexivity.
  - left. reflexivity.
Defined.

(** C6.  A creation whose decoded payload has all mandatory fields
    non-empty appends one record and answers 201 with that same record: it
    carries the payload's gig title, client, e-mail(s) and details
    unchanged, its id is the store's counter and its creation time the
    clock reading, whatever id and creation time the payload carried.  The
    records stored before are kept, and the counter advances by one.  The
    same holds for the single-email variant. *)
Theorem creation_echoes_payload
    (st : Supplier.Store) (now : Time) (r : HttpRequest Supplier.Request)
    (p : Supplier.Request) :
  Body r = DecodeOk p ->
  Supplier.missing_required p = false ->
  (let rec := Supplier.mkRequest (Supplier.nextID st) (Supplier.GigTitle p)
                (Supplier.Client p) (Supplier.ClientEmail p)
                (Supplier.SupplierEmail p) (Supplier.Details p) now in
   Supplier.createRequest st now r
   = (Supplier.mkStore (mk_slice (elems (Supplier.requests st) ++ [rec]))
                       (wrap_int (Supplier.nextID st + 1)),
      mkResponse StatusCreated (JsonOne rec)))
  /\ (forall (bst : Basic.Store) (bp : Basic.Request) (m q : string),
        Basic.missing_required bp = false ->
        let rec := Basic.mkRequest (Basic.nextID bst) (Basic.GigTitle bp)
                     (Basic.Client bp) (Basic.Email bp) (Basic.Details bp) now in
        Basic.createRequest bst now (mkHttpRequest m q (DecodeOk bp))
        = (Basic.mkStore (mk_slice (elems (Basic.requests bst) ++ [rec]))
                         (wrap_int (Basic.nextID bst + 1)),
           mkResponse StatusCreated (JsonOne rec))).
Proof.
  intros HB Hm. split.
  - unfold Supplier.createRequest. by rewrite HB, Hm.
  - intros bst bp m q Hbm. unfold Basic.createRequest. simpl. by rewrite Hbm.
Qed.

Lemma creation_echoes_payload_witness :
  Supplier.createRequest Supplier.init 42
    (mkHttpRequest "POST" ""
       (DecodeOk (Supplier.mkRequest 77 "Logo Design" "Acme" "a@acme.com"
                                     "s1@x.com" "two colours" 1999)))
  = (Supplier.mkStore
       (mk_slice [Supplier.mkRequest 1 "Logo Design" "Acme" "a@acme.com"
                                     "s1@x.com" "two colours" 42]) 2,
     mkResponse StatusCreated
       (JsonOne (Supplier.mkRequest 1 "Logo Design" "Acme" "a@acme.com"
                                    "s1@x.com" "two colours" 42))).
Proof.
  refine (proj1 (creation_echoes_payload Supplier.init 42 _
                   (Supplier.mkRequest 77 "Logo Design" "Acme" "a@acme.com"
                                       "s1@x.com" "two colours" 1999) _ _)).
  - reflexivity.
  - reflexivity.
Defined.

(** C8.  [listRequests] on a store without records, whatever the filter,
    and [listRequests] with a non-empty filter that no stored record
    matches, answers 200 with a sequence of length 0 (for a non-empty
    filter the nil slice); the function has no other outcome than a 200
    with a sequence.  In the single-email variant a store without records
    lists as the empty sequence. *)
Theorem listing_nothing_is_empty
    (st : Supplier.Store) (q : HttpRequest Supplier.Request) :
  elems (Supplier.requests st) = []
  \/ (supplier_email_param q <> ""
      /\ forall x : Supplier.Request,
           x ∈ elems (Supplier.requests st) ->
           Supplier.SupplierEmail x <> supplier_email_param q) ->
  (exists s : slice Supplier.Request,
     Supplier.listRequests st q = (st, mkResponse StatusOK (JsonList s))
     /\ elems s = [] /\ len s = 0%nat)
  /\ (forall (st' : Supplier.Store) (q' : HttpRequest Supplier.Request),
        exists s : slice Supplier.Request,
          Supplier.listRequests st' q' = (st', mkResponse StatusOK (JsonList s)))
  /\ (forall (bst : Basic.Store) (bq : HttpRequest Basic.Request),
        exists s : slice Basic.Request,
          Basic.listRequests bst bq = (bst, mkResponse StatusOK (JsonList s))
          /\ (elems (Basic.requests bst) = [] -> elems s = [])).
Proof.
  intros H. split; [|split].
  - exists (Supplier.filteredRequests (Supplier.requests st) (supplier_email_param q)).
    split; [reflexivity|].
    assert (E : elems (Supplier.filteredRequests (Supplier.requests st)
                         (supplier_email_param q)) = []).
    { rewrite SupplierFacts.filteredRequests_spec.
      destruct H as [H|[Hne H]].
      - by rewrite H.
      - destruct (filter _ _) as [|y ys] eqn:Ef; [done|].
        assert (Hy : y ∈ y :: ys) by left.
        rewrite <- Ef in Hy. apply list_elem_of_filter in Hy as [Hp Hy].
        unfold Supplier.spec_MatchesFilter in Hp.
        rewrite string_eqb_nonempty in Hp by done.
        apply String.eqb_eq in Hp. by destruct (H y Hy). }
    split; [exact E|]. unfold len. by rewrite E.
  - intros st' q'. eexists. reflexivity.
  - intros bst bq. eexists. split; [reflexivity|]. auto.
Qed.

Lemma listing_nothing_is_empty_witness :
  let st := Supplier.mkStore
              (mk_slice [Supplier.mkRequest 1 "Logo Design" "Acme" "a@acme.com"
                                            "s1@x.com" "" 10]) 2 in
  exists s : slice Supplier.Request,
    Supplier.listRequests st (mkHttpRequest "GET" "s2@x.com" (DecodeError "EOF"))
    = (st, mkResponse StatusOK (JsonList s))
    /\ elems s = [] /\ len s = 0%nat.
Proof.
  intros st.
  refine (proj1 (listing_nothing_is_empty st
                   (mkHttpRequest "GET" "s2@x.com" (DecodeError "EOF")) _)).
  right. split; [discriminate|].
  intros x Hx. apply list_elem_of_In in Hx. simpl in Hx.
  destruct Hx as [<-|[]]. discriminate.
Defined.

(** C9.  In the single-email variant the listing does not read the request:
    whatever [supplier_email] parameter (and whatever else) the caller
    sends, a GET is answered 200 with all stored records.  In the
    supplier-aware variant the listing is a subsequence of the stored
    records, and a filter can leave records out. *)
Theorem basic_listing_ignores_query :
  (forall (st : Basic.Store) (q : HttpRequest Basic.Request),
     Basic.listRequests st q
     = (st, mkResponse StatusOK (JsonList (Basic.requests st))))
  /\ (forall (st : Basic.Store) (now : Time) (f : string)
             (body : Decoded Basic.Request),
        Basic.serve st now (mkHttpRequest "GET" f body)
        = (st, mkResponse StatusOK (JsonList (Basic.requests st))))
  /\ (forall (st : Supplier.Store) (q : HttpRequest Supplier.Request),
        elems (Supplier.filteredRequests (Supplier.requests st)
                 (supplier_email_param q))
        `sublist_of` elems (Supplier.requests st))
  /\ (let r1 := Supplier.mkRequest 1 "Logo" "Acme" "a@acme.com" "s1@x.com" "" 10 in
      let r2 := Supplier.mkRequest 2 "Site" "Acme" "a@acme.com" "s2@x.com" "" 11 in
      Supplier.listRequests (Supplier.mkStore (mk_slice [r1; r2]) 3)
        (mkHttpRequest "GET" "s1@x.com" (DecodeError "EOF"))
      = (Supplier.mkStore (mk_slice [r1; r2]) 3,
         mkResponse StatusOK (JsonList (mk_slice [r1])))).
Proof.
  split; [|split; [|split]].
  - reflexivity.
  - reflexivity.
  - intros st q. apply SupplierFacts.filteredRequests_sublist.
  - reflexivity.
Qed.

(** C10.  A listing returns the store it received, collection and counter
    unchanged, in both variants; every record it returns is one of the
    stored records, the very same value in all its fields. *)
Theorem listing_does_not_mutate :
  (forall (st : Supplier.Store) (q : HttpRequest Supplier.Request),
     exists s : slice Supplier.Request,
       Supplier.listRequests st q = (st, mkResponse StatusOK (JsonList s))
       /\ forall x : Supplier.Request,
            x ∈ elems s -> x ∈ elems (Supplier.requests st))
  /\ (forall (st : Supplier.Store) (now : Time) (f : string)
             (body : Decoded Supplier.Request),
        fst (Supplier.serve st now (mkHttpRequest "GET" f body)) = st)
  /\ (forall (st : Basic.Store) (q : HttpRequest Basic.Request),
        Basic.listRequests st q
        = (st, mkResponse StatusOK (JsonList (Basic.requests st))))
  /\ (forall (st : Basic.Store) (now : Time) (f : string)
             (body : Decoded Basic.Request),
        fst (Basic.serve st now (mkHttpRequest "GET" f body)) = st).
Proof.
  split; [|split; [|split]].
  - intros st q. eexists. split; [reflexivity|].
    intros x Hx. rewrite SupplierFacts.filteredRequests_spec in Hx.
    by apply list_elem_of_filter in Hx as [_ Hx].
  - reflexivity.
  - reflexivity.
  - reflexivity.
Qed.

(** * The concurrent executions *)

Module ConcurrentFacts.
Import Supplier SupplierFacts SupplierRun Concurrent.

(** ** The first step of a goroutine against the sequential server *)

Lemma dispatch_shape (r : HttpRequest Request) :
  (exists resp, dispatch r = Finished resp)
  \/ (exists f, dispatch r = ListLock f)
  \/ (exists p, dispatch r = CreateLock p).
Proof.
  unfold dispatch.
  destruct (Method r =? "OPTIONS"); [eauto|].
  destruct (Method r =? "GET"); [eauto|].
  destruct (Method r =? "POST"); [|eauto].
  destruct (Body r); [eauto|].
  destruct (missing_required _); eauto.
Qed.

Lemma dispatch_finished (r : HttpRequest Request) (resp : Response Request) :
  dispatch r = Finished resp ->
  forall (st : Store) (now : Time), serve st now r = (st, resp).
Proof.
  unfold dispatch, serve, CORSHandler, RequestsHandler, createRequest.
  intros H st now.
  destruct (Method r =? "OPTIONS"); [by inversion H|].
  destruct (Method r =? "GET"); [discriminate|].
  destruct (Method r =? "POST"); [|by inversion H].
  destruct (Body r); [by inversion H|].
  destruct (missing_required _); [by inversion H|discriminate].
Qed.

Lemma dispatch_list (r : HttpRequest Request) (f : string) :
  dispatch r = ListLock f ->
  f = supplier_email_param r
  /\ forall (st : Store) (now : Time),
       serve st now r
       = (st, mkResponse StatusOK (JsonList (filteredRequests (requests st) f))).
Proof.
  unfold dispatch, serve, CORSHandler, RequestsHandler, listRequests.
  intros H.
  destruct (Method r =? "OPTIONS"); [discriminate|].
  destruct (Method r =? "GET"); [by inversion H|].
  destruct (Method r =? "POST"); [|discriminate].
  destruct (Body r); [discriminate|].
  destruct (missing_required _); discriminate.
Qed.

Lemma dispatch_create (r : HttpRequest Request) (p : Request) :
  dispatch r = CreateLock p ->
  Body r = DecodeOk p /\ missing_required p = false
  /\ forall (st : Store) (now : Time),
       serve st now r
       = (incr_nextID (append_request st (assign_CreatedAt now (assign_ID st p))),
          mkResponse StatusCreated
            (JsonOne (assign_CreatedAt now (assign_ID st p)))).
Proof.
  unfold dispatch, serve, CORSHandler, RequestsHandler, createRequest.
  intros H.
  destruct (Method r =? "OPTIONS"); [discriminate|].
  destruct (Method r =? "GET"); [discriminate|].
  destruct (Method r =? "POST"); [|discriminate].
  destruct (Body r) as [err|p']; [discriminate|].
  destruct (missing_required p') eqn:Hm; [discriminate|].
  inversion H; subst. by rewrite Hm.
Qed.

(** What kind of answer the sequential server gives to what. *)
Lemma serve_list_content (st : Store) (now : Time) (r : HttpRequest Request)
    (s : slice Request) :
  Content (snd (serve st now r)) = JsonList s ->
  s = filteredRequests (requests st) (supplier_email_param r).
Proof.
  destruct (dispatch_shape r) as [[resp E]|[[f E]|[p E]]].
  - pose proof (dispatch_finished r resp E st now) as Hs. rewrite Hs. simpl.
    revert E. unfold dispatch.
    destruct (Method r =? "OPTIONS"); [intros E; inversion E; subst; discriminate|].
    destruct (Method r =? "GET"); [discriminate|].
    destruct (Method r =? "POST");
      [|intros E; inversion E; subst; discriminate].
    destruct (Body r); [intros E; inversion E; subst; discriminate|].
    destruct (missing_required _);
      [intros E; inversion E; subst; discriminate|discriminate].
  - destruct (dispatch_list r f E) as [-> Hs]. rewrite Hs. simpl. congruence.
  - destruct (dispatch_create r p E) as (_ & _ & Hs). rewrite Hs. discriminate.
Qed.

(** ** Running the sequential server on a concatenation *)

Lemma run_app (a b : list (Time * HttpRequest Request)) (st : Store) :
  run st (a ++ b)
  = (fst (run (fst (run st a)) b), snd (run st a) ++ snd (run (fst (run st a)) b)).
Proof.
  revert st. induction a as [|[now r] a IH]; intros st; simpl.
  - by destruct (run st b).
  - destruct (serve st now r) as [st1 resp]. rewrite IH.
    destruct (run st1 a) as [st2 resps]. simpl. done.
Qed.

Lemma run_length (ins : list (Time * HttpRequest Request)) (st : Store) :
  length (snd (run st ins)) = length ins.
Proof.
  revert st. induction ins as [|[now r] ins IH]; intros st; simpl; [done|].
  destruct (serve st now r) as [st1 resp]. specialize (IH st1).
  destruct (run st1 ins). simpl in *. lia.
Qed.

Lemma history_snoc (lin : list lin_op) (o : lin_op) :
  history (lin ++ [o])
  = (fst (serve (fst (history lin)) (op_now o) (op_req o)),
     snd (history lin) ++ [snd (serve (fst (history lin)) (op_now o) (op_req o))]).
Proof.
  unfold history. rewrite map_app, run_app. simpl.
  by destruct (serve _ _ _).
Qed.

Lemma history_length (lin : list lin_op) :
  length (snd (history lin)) = length lin.
Proof. unfold history. by rewrite run_length, length_map. Qed.

Lemma history_consistent (lin : list lin_op) : consistent (fst (history lin)).
Proof.
  unfold history. destruct (run init (map op_input lin)) as [st resps] eqn:E.
  by destruct (run_created _ _ _ _ E consistent_init).
Qed.

(** ** Executions and their linearization, piece by piece *)

Lemma exec_app (ls1 ls2 : list label) (w : World) :
  exec w (ls1 ++ ls2)
  = match exec w ls1 with
    | Some w1 => exec w1 ls2
    | None => None
    end.
Proof.
  revert w. induction ls1 as [|l ls1 IH]; intros w; simpl; [done|].
  destruct (world_step w l); [apply IH|done].
Qed.

Lemma linearization_app (ls1 ls2 : list label) (w w1 : World) :
  exec w ls1 = Some w1 ->
  linearization w (ls1 ++ ls2) = linearization w ls1 ++ linearization w1 ls2.
Proof.
  revert w. induction ls1 as [|l ls1 IH]; intros w; simpl.
  - by intros [= ->].
  - destruct (world_step w l) as [w'|]; [|done].
    intros H. by rewrite (IH _ H), app_assoc.
Qed.

(** ** The mutex *)

Lemma dispatch_outside (r : HttpRequest Request) : in_cs (dispatch r) = false.
Proof.
  by destruct (dispatch_shape r) as [[resp ->]|[[f ->]|[p ->]]].
Qed.

(** A step stays outside the critical sections, enters one by taking the
    free mutex, stays inside one, or leaves it by releasing the mutex. *)
Lemma go_step_lock (now : Time) (g : goroutine) (st st' : Store)
    (lk lk' : bool) (p : pc) :
  go_step now g st lk = Some (p, st', lk') ->
  (in_cs (g_pc g) = false /\ in_cs p = false /\ lk' = lk /\ st' = st)
  \/ (in_cs (g_pc g) = false /\ in_cs p = true /\ lk = false /\ lk' = true
      /\ st' = st)
  \/ (in_cs (g_pc g) = true /\ in_cs p = true /\ lk' = lk)
  \/ (in_cs (g_pc g) = true /\ in_cs p = false /\ lk = true /\ lk' = false
      /\ st' = st).
Proof.
  destruct g as [r p0]. unfold go_step. simpl.
  destruct p0 as [|nr|nr|nr|nr|nr|nr|nr|f|f|f rest acc|s|s|resp]; simpl;
    try (destruct lk; [|]); try discriminate;
    try (intros [= <- <- <-]; simpl; tauto).
  - intros [= <- <- <-]. rewrite dispatch_outside. tauto.
  - intros [= <- <- <-]. rewrite dispatch_outside. tauto.
  - destruct (negb (f =? "")); intros [= <- <- <-]; simpl; tauto.
  - destruct (negb (f =? "")); intros [= <- <- <-]; simpl; tauto.
  - destruct rest; intros [= <- <- <-]; simpl; tauto.
  - destruct rest; intros [= <- <- <-]; simpl; tauto.
Qed.

Lemma holder_locked (w : World) (i : nat) (g : goroutine) :
  mutex_ok w -> pool w !! i = Some g -> in_cs (g_pc g) = true ->
  locked w = true.
Proof.
  intros [H1 _] Hi Hcs. destruct (locked w); [done|].
  rewrite (H1 eq_refl _ _ Hi) in Hcs. discriminate.
Qed.

Lemma others_outside (w : World) (i j : nat) (g gj : goroutine) :
  mutex_ok w -> pool w !! i = Some g -> in_cs (g_pc g) = true ->
  pool w !! j = Some gj -> j <> i -> in_cs (g_pc gj) = false.
Proof.
  intros Hm Hi Hcs Hj Hne.
  pose proof (holder_locked _ _ _ Hm Hi Hcs) as Hl.
  destruct Hm as [_ H2]. destruct (H2 Hl) as (h & gh & _ & _ & Hu).
  destruct (in_cs (g_pc gj)) eqn:E; [|done].
  pose proof (Hu _ _ Hi Hcs). pose proof (Hu _ _ Hj E). congruence.
Qed.

Lemma mutex_step (w : World) (i : nat) (g : goroutine) (now : Time)
    (p : pc) (st : Store) (lk : bool) :
  mutex_ok w -> pool w !! i = Some g ->
  go_step now g (store w) (locked w) = Some (p, st, lk) ->
  mutex_ok (mkWorld st lk (<[i := mkG (g_req g) p]> (pool w))).
Proof.
  intros Hm Hi Hstep.
  pose proof (lookup_lt_Some _ _ _ Hi) as Hlt.
  assert (Hnew : <[i := mkG (g_req g) p]> (pool w) !! i = Some (mkG (g_req g) p))
    by (by apply list_lookup_insert_eq).
  destruct (go_step_lock _ _ _ _ _ _ _ Hstep)
    as [(Ho & Hn & -> & _)|[(Ho & Hn & Hl & -> & _)|[(Ho & Hn & ->)|(Ho & Hn & Hl & -> & _)]]];
    split; simpl; try discriminate.
  - intros Hl j gj Hj.
    apply list_lookup_insert_Some in Hj as [(<- & <- & _)|(Hne & Hj)]; [done|].
    by apply (proj1 Hm Hl j).
  - intros Hl. destruct (proj2 Hm Hl) as (h & gh & Hh & Hcs & Hu).
    assert (h <> i) by (intros ->; congruence).
    exists h, gh. split; [by rewrite list_lookup_insert_ne|]. split; [done|].
    intros j gj Hj Hc.
    apply list_lookup_insert_Some in Hj as [(<- & <- & _)|(Hne & Hj)].
    + simpl in Hc. congruence.
    + by apply (Hu j gj).
  - intros _. exists i, (mkG (g_req g) p). split; [done|]. split; [done|].
    intros j gj Hj Hc.
    apply list_lookup_insert_Some in Hj as [(<- & <- & _)|(Hne & Hj)]; [done|].
    rewrite (proj1 Hm Hl j gj Hj) in Hc. discriminate.
  - intros Hl j gj Hj.
    apply list_lookup_insert_Some in Hj as [(<- & <- & _)|(Hne & Hj)].
    + simpl. pose proof (holder_locked _ _ _ Hm Hi Ho). congruence.
    + by apply (proj1 Hm Hl j).
  - intros _. exists i, (mkG (g_req g) p). split; [done|]. split; [done|].
    intros j gj Hj Hc.
    apply list_lookup_insert_Some in Hj as [(<- & <- & _)|(Hne & Hj)]; [done|].
    pose proof (others_outside _ _ _ _ _ Hm Hi Ho Hj ltac:(congruence)).
    congruence.
  - intros _ j gj Hj.
    apply list_lookup_insert_Some in Hj as [(<- & <- & _)|(Hne & Hj)]; [done|].
    apply (others_outside _ _ _ _ _ Hm Hi Ho Hj). congruence.
Qed.

Lemma mutex_spawn (w : World) (r : HttpRequest Request) :
  mutex_ok w ->
  mutex_ok (mkWorld (store w) (locked w) (pool w ++ [mkG r Start])).
Proof.
  intros [H1 H2]. split; simpl.
  - intros Hl j gj Hj.
    apply lookup_app_Some in Hj as [Hj|[_ Hj]]; [by apply (H1 Hl j)|].
    by apply list_lookup_singleton_Some in Hj as [_ <-].
  - intros Hl. destruct (H2 Hl) as (h & gh & Hh & Hcs & Hu).
    exists h, gh. split; [by apply lookup_app_l_Some|]. split; [done|].
    intros j gj Hj Hc.
    apply lookup_app_Some in Hj as [Hj|[_ Hj]]; [by apply (Hu j gj)|].
    apply list_lookup_singleton_Some in Hj as [_ <-]. discriminate.
Qed.

(** ** The local variables of the goroutines *)

Lemma pc_ok_indep (st st' : Store) (g : goroutine) :
  in_cs (g_pc g) = false -> pc_ok st g -> pc_ok st' g.
Proof.
  destruct g as [r p]. unfold pc_ok. by destruct p.
Qed.

Lemma go_step_store (now : Time) (g : goroutine) (st st' : Store)
    (lk lk' : bool) (p : pc) :
  go_step now g st lk = Some (p, st', lk') ->
  st' = st \/ in_cs (g_pc g) = true.
Proof.
  intros H. destruct (go_step_lock _ _ _ _ _ _ _ H)
    as [(_ & _ & _ & ->)|[(_ & _ & _ & _ & ->)|[(Ho & _)|(Ho & _)]]]; auto.
Qed.

Lemma pc_ok_dispatch (st : Store) (r : HttpRequest Request) :
  pc_ok st (mkG r (dispatch r)).
Proof.
  unfold pc_ok. simpl.
  by destruct (dispatch_shape r) as [[resp E]|[[f E]|[p E]]]; rewrite E.
Qed.

Lemma filteredRequests_loop (reqs : slice Request) (f : string) :
  f <> "" ->
  filteredRequests reqs f = fold_left (filter_step f) (elems reqs) nil_slice.
Proof.
  intros Hf. unfold filteredRequests. by rewrite string_eqb_nonempty.
Qed.

Lemma pc_ok_own (now : Time) (g : goroutine) (st st' : Store)
    (lk lk' : bool) (p : pc) :
  pc_ok st g ->
  go_step now g st lk = Some (p, st', lk') ->
  pc_ok st' (mkG (g_req g) p).
Proof.
  destruct g as [r p0]. unfold go_step. simpl.
  destruct p0 as [|nr|nr|nr|nr|nr|nr|nr|f|f|f rest acc|s|s|resp];
    unfold pc_ok at 1; simpl; intros Hok.
  - intros [= <- <- <-]. apply pc_ok_dispatch.
  - destruct lk; [discriminate|]. by intros [= <- <- <-].
  - intros [= <- <- <-]. unfold pc_ok. simpl. eauto.
  - intros [= <- <- <-]. unfold pc_ok. simpl.
    destruct Hok as (p0 & Hd & ->). eauto.
  - by intros [= <- <- <-].
  - by intros [= <- <- <-].
  - destruct lk; [|discriminate]. by intros [= <- <- <-].
  - by intros [= <- <- <-].
  - destruct lk; [discriminate|]. by intros [= <- <- <-].
  - destruct (String.eqb_spec f "") as [->|Hf]; simpl; intros [= <- <- <-];
      unfold pc_ok; simpl.
    + exists "". by rewrite filteredRequests_empty.
    + split; [done|]. split; [done|]. by exists [].
  - destruct Hok as (Hd & Hf & seen & Hel & ->).
    destruct rest as [|x rest]; intros [= <- <- <-]; unfold pc_ok; simpl.
    + exists f. split; [done|]. rewrite filteredRequests_loop by done.
      by rewrite Hel, app_nil_r.
    + split; [done|]. split; [done|]. exists (seen ++ [x]).
      split; [by rewrite <- app_assoc|]. by rewrite fold_left_app.
  - by intros [= <- <- <-].
  - destruct lk; [|discriminate]. by intros [= <- <- <-].
  - discriminate.
Qed.

Lemma pc_ok_step (w : World) (i : nat) (g : goroutine) (now : Time)
    (p : pc) (st : Store) (lk : bool) :
  mutex_ok w ->
  (forall j gj, pool w !! j = Some gj -> pc_ok (store w) gj) ->
  pool w !! i = Some g ->
  go_step now g (store w) (locked w) = Some (p, st, lk) ->
  forall j gj, <[i := mkG (g_req g) p]> (pool w) !! j = Some gj -> pc_ok st gj.
Proof.
  intros Hm Hok Hi Hstep j gj Hj.
  apply list_lookup_insert_Some in Hj as [(<- & <- & _)|(Hne & Hj)].
  - eapply pc_ok_own; [by apply (Hok i)|done].
  - destruct (go_step_store _ _ _ _ _ _ _ Hstep) as [->|Hcs]; [by apply (Hok j)|].
    apply pc_ok_indep with (store w); [|by apply (Hok j)].
    apply (others_outside _ _ _ _ _ Hm Hi Hcs Hj). congruence.
Qed.

(** ** The store of the sequential history *)

Lemma pending_incr_true (w : World) :
  pending_incr w = true
  <-> exists (j : nat) (g : goroutine),
        pool w !! j = Some g /\ is_incr (g_pc g) = true.
Proof.
  unfold pending_incr. rewrite existsb_exists. split.
  - intros (g & Hin & Hg). apply list_elem_of_In, list_elem_of_lookup in Hin.
    destruct Hin as [j Hj]. eauto.
  - intros (j & g & Hj & Hg). exists g. split; [|done].
    apply list_elem_of_In, list_elem_of_lookup. eauto.
Qed.

Lemma abs_incr (w : World) (i : nat) (g : goroutine) :
  pool w !! i = Some g -> is_incr (g_pc g) = true ->
  abs w = incr_nextID (store w).
Proof.
  intros Hi Hg. unfold abs.
  assert (pending_incr w = true) as -> by (apply pending_incr_true; eauto).
  done.
Qed.

Lemma is_incr_in_cs (p : pc) : is_incr p = true -> in_cs p = true.
Proof. by destruct p. Qed.

Lemma abs_no_incr (w : World) :
  (forall (j : nat) (g : goroutine),
     pool w !! j = Some g -> is_incr (g_pc g) = false) ->
  abs w = store w.
Proof.
  intros H. unfold abs. destruct (pending_incr w) eqn:E; [|done].
  apply pending_incr_true in E as (j & g & Hj & Hg).
  rewrite (H _ _ Hj) in Hg. discriminate.
Qed.

Lemma abs_holder (w : World) (i : nat) (g : goroutine) :
  mutex_ok w -> pool w !! i = Some g -> in_cs (g_pc g) = true ->
  is_incr (g_pc g) = false ->
  abs w = store w.
Proof.
  intros Hm Hi Hcs Hni. apply abs_no_incr. intros j gj Hj.
  destruct (decide (j = i)) as [->|Hne]; [congruence|].
  pose proof (others_outside _ _ _ _ _ Hm Hi Hcs Hj Hne) as Ho.
  destruct (is_incr (g_pc gj)) eqn:E; [|done].
  apply is_incr_in_cs in E. congruence.
Qed.

Lemma abs_unlocked (w : World) :
  mutex_ok w -> locked w = false -> abs w = store w.
Proof.
  intros [H1 _] Hl. apply abs_no_incr. intros j gj Hj.
  destruct (is_incr (g_pc gj)) eqn:E; [|done].
  apply is_incr_in_cs in E. rewrite (H1 Hl _ _ Hj) in E. discriminate.
Qed.

Lemma existsb_insert_same {A} (F : A -> bool) (l : list A) (i : nat) (x y : A) :
  l !! i = Some x -> F y = F x ->
  existsb F (<[i := y]> l) = existsb F l.
Proof.
  revert i. induction l as [|a l IH]; intros [|i]; simpl; try done.
  - intros [= ->] ->. done.
  - intros Hi Hy. by rewrite (IH i).
Qed.

(** ** Extending the sequential history *)

Lemma linearized_as_extend (lin : list lin_op) (resps : list (Response Request))
    (o : lin_op) (resp' : Response Request)
    (j : nat) (r : HttpRequest Request) (resp : Response Request) :
  linearized_as lin resps j r resp ->
  linearized_as (lin ++ [o]) (resps ++ [resp']) j r resp.
Proof.
  intros (k & o' & Hk & Ht & Hr & Hresp). exists k, o'.
  split; [by apply lookup_app_l_Some|]. split; [done|]. split; [done|].
  by apply lookup_app_l_Some.
Qed.

Lemma lin_ok_extend (lin : list lin_op) (resps : list (Response Request))
    (o : lin_op) (resp' : Response Request) (j : nat) (gj : goroutine) :
  lin_ok lin resps j gj -> op_tid o <> j ->
  lin_ok (lin ++ [o]) (resps ++ [resp']) j gj.
Proof.
  intros Hok Hne. unfold lin_ok in *.
  assert (Hnot : j ∉ op_tid <$> lin -> j ∉ op_tid <$> (lin ++ [o])).
  { intros Hn. rewrite fmap_app. apply not_elem_of_app. split; [done|].
    simpl. rewrite list_elem_of_singleton. congruence. }
  destruct (g_pc gj); auto using linearized_as_extend.
Qed.

Lemma linearized_as_new (lin : list lin_op) (resps : list (Response Request))
    (o : lin_op) (resp : Response Request) :
  length resps = length lin ->
  linearized_as (lin ++ [o]) (resps ++ [resp]) (op_tid o) (op_req o) resp.
Proof.
  intros Hlen. exists (length lin), o.
  split; [by rewrite lookup_app_r, Nat.sub_diag by lia|].
  split; [done|]. split; [done|].
  by rewrite <- Hlen, lookup_app_r, Nat.sub_diag by lia.
Qed.

(** ** The invariant is kept by every step *)

Lemma abs_insert_same (w : World) (i : nat) (g : goroutine) (p : pc) (lk : bool) :
  pool w !! i = Some g -> is_incr p = is_incr (g_pc g) ->
  abs (mkWorld (store w) lk (<[i := mkG (g_req g) p]> (pool w))) = abs w.
Proof.
  intros Hi Hp. unfold abs, pending_incr. simpl.
  by rewrite (existsb_insert_same _ _ _ g).
Qed.

(** A step that is not a linearization point. *)
Lemma inv_silent (w : World) (lin : list lin_op) (i : nat) (g : goroutine)
    (now : Time) (p : pc) (st : Store) (lk : bool) :
  Inv w lin -> pool w !! i = Some g ->
  go_step now g (store w) (locked w) = Some (p, st, lk) ->
  abs (mkWorld st lk (<[i := mkG (g_req g) p]> (pool w))) = abs w ->
  (forall resps, lin_ok lin resps i g -> lin_ok lin resps i (mkG (g_req g) p)) ->
  Inv (mkWorld st lk (<[i := mkG (g_req g) p]> (pool w))) lin.
Proof.
  intros [Hm Hpc Habs Hlin Hnd Htid] Hi Hstep Ha Hl. constructor; simpl.
  - by eapply mutex_step.
  - by eapply pc_ok_step.
  - by rewrite Ha.
  - intros j gj Hj.
    apply list_lookup_insert_Some in Hj as [(<- & <- & _)|(Hne & Hj)].
    + by apply Hl, Hlin.
    + by apply Hlin.
  - done.
  - intros o Ho. rewrite length_insert. by apply Htid.
Qed.

(** A linearization point: the sequential server, run on the operation,
    yields the new abstract store and the answer the goroutine will give. *)
Lemma inv_linpoint (w : World) (lin : list lin_op) (i : nat) (g : goroutine)
    (now : Time) (p : pc) (st : Store) (lk : bool) (o : lin_op) :
  Inv w lin -> pool w !! i = Some g ->
  go_step now g (store w) (locked w) = Some (p, st, lk) ->
  op_tid o = i -> op_req o = g_req g ->
  (forall resps, lin_ok lin resps i g -> i ∉ op_tid <$> lin) ->
  fst (serve (abs w) (op_now o) (op_req o))
  = abs (mkWorld st lk (<[i := mkG (g_req g) p]> (pool w))) ->
  (forall lin' resps',
     linearized_as lin' resps' i (g_req g)
                   (snd (serve (abs w) (op_now o) (op_req o))) ->
     lin_ok lin' resps' i (mkG (g_req g) p)) ->
  Inv (mkWorld st lk (<[i := mkG (g_req g) p]> (pool w))) (lin ++ [o]).
Proof.
  intros [Hm Hpc Habs Hlin Hnd Htid] Hi Hstep Ht Hr Hfresh Ha Hl.
  pose proof (Hfresh _ (Hlin _ _ Hi)) as Hni.
  pose proof (lookup_lt_Some _ _ _ Hi) as Hlt.
  constructor; simpl.
  - by eapply mutex_step.
  - by eapply pc_ok_step.
  - rewrite history_snoc. simpl. by rewrite Habs.
  - intros j gj Hj. rewrite history_snoc. simpl. rewrite Habs.
    apply list_lookup_insert_Some in Hj as [(<- & <- & _)|(Hne & Hj)].
    + apply Hl. rewrite <- Ht at 1. rewrite <- Hr at 1.
      apply linearized_as_new, history_length.
    + apply lin_ok_extend; [by apply Hlin|congruence].
  - rewrite fmap_app. apply NoDup_app. split; [done|]. split.
    + intros x Hx. simpl. rewrite list_elem_of_singleton. congruence.
    + simpl. apply NoDup_singleton.
  - intros o' Ho'. rewrite length_insert.
    apply elem_of_app in Ho' as [Ho'|Ho']; [by apply Htid|].
    apply list_elem_of_singleton in Ho' as ->. lia.
Qed.

Lemma inv_spawn (w : World) (lin : list lin_op) (r : HttpRequest Request) :
  Inv w lin ->
  Inv (mkWorld (store w) (locked w) (pool w ++ [mkG r Start])) lin.
Proof.
  intros [Hm Hpc Habs Hlin Hnd Htid]. constructor; simpl.
  - by apply mutex_spawn.
  - intros j gj Hj.
    apply lookup_app_Some in Hj as [Hj|[_ Hj]]; [by apply (Hpc j)|].
    by apply list_lookup_singleton_Some in Hj as [_ <-].
  - rewrite Habs. unfold abs, pending_incr. simpl.
    rewrite existsb_app. simpl. by rewrite !orb_false_r.
  - intros j gj Hj.
    apply lookup_app_Some in Hj as [Hj|[Hge Hj]]; [by apply Hlin|].
    apply list_lookup_singleton_Some in Hj as [Hj <-].
    unfold lin_ok. simpl. intros Hin.
    apply list_elem_of_fmap in Hin as (o & -> & Ho).
    apply Htid in Ho. lia.
  - done.
  - intros o Ho. rewrite length_app. apply Htid in Ho. lia.
Qed.

Lemma inv_step (w w' : World) (lin : list lin_op) (l : label) :
  Inv w lin -> world_step w l = Some w' ->
  Inv w' (lin ++ option_list (lin_point w l)).
Proof.
  intros HI Hstep. destruct l as [r|i now]; simpl in *.
  { injection Hstep as <-. rewrite app_nil_r. by apply inv_spawn. }
  destruct (pool w !! i) as [g|] eqn:Hi; [|done].
  destruct (go_step now g (store w) (locked w)) as [[[p st] lk]|] eqn:Hg; [|done].
  injection Hstep as <-.
  pose proof (inv_mutex _ _ HI) as Hm.
  pose proof (inv_pc _ _ HI _ _ Hi) as Hok.
  pose proof (mutex_step _ _ _ _ _ _ _ Hm Hi Hg) as Hm'.
  pose proof (lookup_lt_Some _ _ _ Hi) as Hlt.
  destruct g as [r p0]. unfold go_step in Hg. unfold pc_ok in Hok. simpl in *.
  destruct p0 as [|nr|nr|nr|nr|nr|nr|nr|f|f|f rest acc|s|s|resp]; simpl in *.
  - (* Start *)
    injection Hg as <- <- <-.
    destruct (dispatch_shape r) as [[resp E]|[[f E]|[p E]]]; rewrite E; simpl.
    + eapply (inv_linpoint _ _ _ (mkG r Start) now _ _ _ (mkOp i now r)); eauto.
      * unfold go_step. simpl. by rewrite E.
      * simpl. rewrite (dispatch_finished _ _ E). simpl.
        symmetry. by apply (abs_insert_same w i (mkG r Start)).
      * simpl. intros lin' resps'. by rewrite (dispatch_finished _ _ E).
    + rewrite app_nil_r.
      eapply (inv_silent _ _ _ (mkG r Start) now); eauto.
      * unfold go_step. simpl. by rewrite E.
      * by apply (abs_insert_same w i (mkG r Start)).
    + rewrite app_nil_r.
      eapply (inv_silent _ _ _ (mkG r Start) now); eauto.
      * unfold go_step. simpl. by rewrite E.
      * by apply (abs_insert_same w i (mkG r Start)).
  - (* CreateLock *)
    destruct (locked w) eqn:Hl; [done|]. injection Hg as <- <- <-.
    rewrite app_nil_r.
    eapply (inv_silent _ _ _ (mkG r (CreateLock nr)) now); eauto.
    + unfold go_step. simpl. by rewrite Hl.
    + by apply (abs_insert_same w i (mkG r (CreateLock nr))).
  - (* CreateAssignID *)
    injection Hg as <- <- <-. rewrite app_nil_r.
    eapply (inv_silent _ _ _ (mkG r (CreateAssignID nr)) now); eauto.
    by apply (abs_insert_same w i (mkG r (CreateAssignID nr))).
  - (* CreateAssignTime *)
    injection Hg as <- <- <-. rewrite app_nil_r.
    eapply (inv_silent _ _ _ (mkG r (CreateAssignTime nr)) now); eauto.
    by apply (abs_insert_same w i (mkG r (CreateAssignTime nr))).
  - (* CreateAppend: the linearization point of a creation *)
    injection Hg as <- <- <-. destruct Hok as (p & Hd & Hnr).
    destruct (dispatch_create _ _ Hd) as (_ & _ & Hs).
    assert (Ha : abs w = store w).
    { by apply (abs_holder w i (mkG r (CreateAppend nr))). }
    eapply (inv_linpoint _ _ _ (mkG r (CreateAppend nr)) now _ _ _
              (mkOp i (CreatedAt nr) r)); eauto.
    + simpl. rewrite Ha, Hs, <- Hnr. simpl. symmetry.
      apply (abs_incr (mkWorld (append_request (store w) nr) (locked w)
                         (<[i := mkG r (CreateIncr nr)]> (pool w)))
                      i (mkG r (CreateIncr nr)));
        simpl; [by apply list_lookup_insert_eq|done].
    + simpl. intros lin' resps'. by rewrite Ha, Hs, <- Hnr.
  - (* CreateIncr *)
    injection Hg as <- <- <-. rewrite app_nil_r.
    eapply (inv_silent _ _ _ (mkG r (CreateIncr nr)) now); eauto.
    rewrite (abs_incr w i (mkG r (CreateIncr nr))) by done.
    apply (abs_holder (mkWorld (incr_nextID (store w)) (locked w)
                         (<[i := mkG r (CreateUnlock nr)]> (pool w)))
                      i (mkG r (CreateUnlock nr)));
      simpl; [done|by apply list_lookup_insert_eq|done..].
  - (* CreateUnlock *)
    destruct (locked w) eqn:Hl; [|done]. injection Hg as <- <- <-.
    rewrite app_nil_r.
    eapply (inv_silent _ _ _ (mkG r (CreateUnlock nr)) now); eauto.
    + unfold go_step. simpl. by rewrite Hl.
    + by apply (abs_insert_same w i (mkG r (CreateUnlock nr))).
  - (* CreateRespond *)
    injection Hg as <- <- <-. rewrite app_nil_r.
    eapply (inv_silent _ _ _ (mkG r (CreateRespond nr)) now); eauto.
    by apply (abs_insert_same w i (mkG r (CreateRespond nr))).
  - (* ListLock *)
    destruct (locked w) eqn:Hl; [done|]. injection Hg as <- <- <-.
    rewrite app_nil_r.
    eapply (inv_silent _ _ _ (mkG r (ListLock f)) now); eauto.
    + unfold go_step. simpl. by rewrite Hl.
    + by apply (abs_insert_same w i (mkG r (ListLock f))).
  - (* ListIf *)
    rewrite app_nil_r.
    destruct (negb (f =? "")) eqn:Hf; injection Hg as <- <- <-.
    + eapply (inv_silent _ _ _ (mkG r (ListIf f)) now); eauto.
      * unfold go_step. simpl. by rewrite Hf.
      * by apply (abs_insert_same w i (mkG r (ListIf f))).
    + eapply (inv_silent _ _ _ (mkG r (ListIf f)) now); eauto.
      * unfold go_step. simpl. by rewrite Hf.
      * by apply (abs_insert_same w i (mkG r (ListIf f))).
  - (* ListRange *)
    rewrite app_nil_r.
    destruct rest as [|x rest]; injection Hg as <- <- <-.
    + eapply (inv_silent _ _ _ (mkG r (ListRange f [] acc)) now); eauto.
      by apply (abs_insert_same w i (mkG r (ListRange f [] acc))).
    + eapply (inv_silent _ _ _ (mkG r (ListRange f (x :: rest) acc)) now); eauto.
      by apply (abs_insert_same w i (mkG r (ListRange f (x :: rest) acc))).
  - (* ListEncode *)
    injection Hg as <- <- <-. rewrite app_nil_r.
    eapply (inv_silent _ _ _ (mkG r (ListEncode s)) now); eauto.
    by apply (abs_insert_same w i (mkG r (ListEncode s))).
  - (* ListUnlock: the linearization point of a listing *)
    destruct (locked w) eqn:Hl; [|done]. injection Hg as <- <- <-.
    destruct Hok as (f & Hd & Hs). destruct (dispatch_list _ _ Hd) as [_ Hserve].
    assert (Ha : abs w = store w).
    { by apply (abs_holder w i (mkG r (ListUnlock s))). }
    eapply (inv_linpoint _ _ _ (mkG r (ListUnlock s)) now _ _ _ (mkOp i now r));
      eauto.
    + unfold go_step. simpl. by rewrite Hl.
    + simpl. rewrite Hserve. simpl. symmetry.
      by apply (abs_insert_same w i (mkG r (ListUnlock s))).
    + simpl. intros lin' resps'. by rewrite Ha, Hserve, <- Hs.
  - done.
Qed.

Lemma inv_init : Inv init_world [].
Proof.
  constructor; simpl.
  - split; simpl; [|discriminate]. intros _ j g Hj. by destruct j.
  - intros j g Hj. by destruct j.
  - reflexivity.
  - intros j g Hj. by destruct j.
  - apply NoDup_nil_2.
  - intros o Ho. by apply elem_of_nil in Ho.
Qed.

Lemma inv_exec (ls : list label) :
  forall (w w' : World) (lin : list lin_op),
    Inv w lin -> exec w ls = Some w' -> Inv w' (lin ++ linearization w ls).
Proof.
  induction ls as [|l ls IH]; intros w w' lin HI; simpl.
  - intros [= <-]. by rewrite app_nil_r.
  - destruct (world_step w l) as [w1|] eqn:Hs; [|done]. intros He.
    rewrite app_assoc. apply (IH w1); [|done]. by apply inv_step.
Qed.

Lemma inv_reachable (ls : list label) (w : World) :
  exec init_world ls = Some w -> Inv w (linearization init_world ls).
Proof. intros He. apply (inv_exec ls init_world w [] inv_init He). Qed.

(** ** Reading the sequential history *)

Lemma history_app (a b : list lin_op) :
  snd (history (a ++ b))
  = snd (history a) ++ snd (run (fst (history a)) (map op_input b)).
Proof. unfold history. by rewrite map_app, run_app. Qed.

Lemma history_lookup (lin : list lin_op) (k : nat) (o : lin_op) :
  lin !! k = Some o ->
  snd (history lin) !! k
  = Some (snd (serve (fst (history (take k lin))) (op_now o) (op_req o)))
  /\ take k (snd (history lin)) = snd (history (take k lin)).
Proof.
  intros Hk. pose proof (lookup_lt_Some _ _ _ Hk) as Hlt.
  rewrite <- (take_drop_middle lin k o Hk) at 1 3.
  rewrite history_app.
  assert (Hlen : length (snd (history (take k lin))) = k).
  { rewrite history_length, length_take. lia. }
  split.
  - rewrite lookup_app_r by lia. rewrite Hlen, Nat.sub_diag. simpl.
    destruct (serve _ _ _) as [st1 resp]. simpl.
    by destruct (run st1 _).
  - rewrite take_app_le by lia. rewrite take_ge by lia. done.
Qed.

Lemma created_lookup {R} (resps : list (Response R)) (k : nat) (rec : R) :
  resps !! k = Some (mkResponse StatusCreated (JsonOne rec)) ->
  rec ∈ created resps.
Proof.
  intros Hk. unfold created. apply list_elem_of_omap.
  exists (mkResponse StatusCreated (JsonOne rec)).
  split; [by eapply list_elem_of_lookup_2|done].
Qed.

Lemma history_requests (lin : list lin_op) :
  elems (requests (fst (history lin))) = created (snd (history lin)).
Proof.
  unfold history. destruct (run init (map op_input lin)) as [st resps] eqn:E.
  destruct (run_created _ _ _ _ E consistent_init) as (_ & H & _).
  simpl in *. done.
Qed.

(** Every record the sequential server creates is a decoded, valid payload
    with id and creation time assigned. *)
Lemma created_complete (ins : list (Time * HttpRequest Request)) :
  forall (st : Store) (x : Request),
    x ∈ created (snd (run st ins)) ->
    exists (now : Time) (r : HttpRequest Request) (p : Request) (st0 : Store),
      (now, r) ∈ ins /\ Body r = DecodeOk p /\ missing_required p = false
      /\ x = assign_CreatedAt now (assign_ID st0 p).
Proof.
  induction ins as [|[now r] ins IH]; intros st x; simpl.
  - intros Hx. by apply elem_of_nil in Hx.
  - destruct (serve st now r) as [st1 resp] eqn:Hs.
    specialize (IH st1 x). destruct (run st1 ins) as [st2 resps].
    change (snd (st2, resp :: resps)) with (resp :: resps).
    change (snd (st2, resps)) with resps in IH.
    rewrite created_cons. intros Hx. apply elem_of_app in Hx as [Hx|Hx].
    + destruct (serve_cases st now r) as [(resp' & E & Hn)|(p & HB & Hm & E)].
      * rewrite E in Hs. injection Hs as <- <-. rewrite Hn in Hx.
        by apply elem_of_nil in Hx.
      * simpl in E. rewrite E in Hs. injection Hs as <- <-.
        apply list_elem_of_singleton in Hx as ->.
        exists now, r, p, st. split; [left|done].
    + destruct (IH Hx) as (now' & r' & p & st0 & Hin & H).
      exists now', r', p, st0. split; [by right|done].
Qed.

Lemma requests_abs (w : World) : requests (abs w) = requests (store w).
Proof. unfold abs. by destruct (pending_incr w). Qed.

Lemma linearized_unique (lin : list lin_op) (k1 k2 : nat) (o1 o2 : lin_op) :
  NoDup (op_tid <$> lin) ->
  lin !! k1 = Some o1 -> lin !! k2 = Some o2 -> op_tid o1 = op_tid o2 ->
  k1 = k2.
Proof.
  intros Hnd H1 H2 Ht.
  apply (NoDup_lookup (op_tid <$> lin) k1 k2 (op_tid o1) Hnd).
  - by rewrite list_lookup_fmap, H1.
  - by rewrite list_lookup_fmap, H2, Ht.
Qed.

Lemma not_started_fresh (w : World) (lin : list lin_op) (j : nat) :
  Inv w lin -> not_started (pool w !! j) -> j ∉ op_tid <$> lin.
Proof.
  intros HI Hj. destruct (pool w !! j) as [g|] eqn:E.
  - pose proof (inv_lin _ _ HI _ _ E) as Hl. unfold lin_ok in Hl.
    simpl in Hj. by destruct (g_pc g).
  - intros Hin. apply list_elem_of_fmap in Hin as (o & -> & Ho).
    apply (inv_tids _ _ HI) in Ho. apply lookup_ge_None in E. lia.
Qed.

Lemma completed_linearized (w : World) (lin : list lin_op) (i : nat)
    (g : goroutine) (rec : Request) :
  Inv w lin -> pool w !! i = Some g -> append_completed (g_pc g) rec ->
  linearized_as lin (snd (history lin)) i (g_req g)
                (mkResponse StatusCreated (JsonOne rec)).
Proof.
  intros HI Hi Hc. pose proof (inv_lin _ _ HI _ _ Hi) as Hl.
  unfold lin_ok in Hl. by destruct Hc as [E|E]; rewrite E in Hl.
Qed.

(** An operation that has taken effect when another one has not started
    precedes it in the sequential history. *)
Lemma linearized_before (ls1 ls2 : list label) (w1 : World)
    (i j : nat) (r : HttpRequest Request) (respi : Response Request) :
  exec init_world ls1 = Some w1 ->
  linearized_as (linearization init_world ls1)
                (snd (history (linearization init_world ls1))) i r respi ->
  j ∉ op_tid <$> linearization init_world ls1 ->
  exists (ki : nat) (oi : lin_op),
    linearization init_world (ls1 ++ ls2) !! ki = Some oi
    /\ op_tid oi = i /\ op_req oi = r
    /\ snd (history (linearization init_world (ls1 ++ ls2))) !! ki = Some respi
    /\ forall (kj : nat) (oj : lin_op),
         linearization init_world (ls1 ++ ls2) !! kj = Some oj ->
         op_tid oj = j -> (ki < kj)%nat.
Proof.
  intros He1 Hl Hj.
  rewrite (linearization_app _ ls2 _ _ He1).
  set (lin1 := linearization init_world ls1) in *.
  destruct Hl as (ki & oi & Hki & Hti & Hri & Hresp).
  exists ki, oi. split; [by apply lookup_app_l_Some|].
  split; [done|]. split; [done|]. split.
  - rewrite history_app. by apply lookup_app_l_Some.
  - intros kj oj Hkj Htj.
    pose proof (lookup_lt_Some _ _ _ Hki) as Hlt.
    destruct (decide (kj < length lin1)%nat) as [Hin|Hout]; [|lia].
    rewrite lookup_app_l in Hkj by done.
    destruct Hj. apply list_elem_of_fmap. exists oj.
    split; [done|]. by eapply list_elem_of_lookup_2.
Qed.

(** The answer of a listing in the sequential history is the filtered
    store of a prefix of that history, which holds every record created
    earlier in it. *)
Lemma listing_in_history (lin : list lin_op) (k : nat) (o : lin_op)
    (s : slice Request) :
  lin !! k = Some o ->
  snd (history lin) !! k = Some (mkResponse StatusOK (JsonList s)) ->
  s = filteredRequests (requests (fst (history (take k lin))))
                       (supplier_email_param (op_req o))
  /\ forall (k' : nat) (rec : Request),
       (k' < k)%nat ->
       snd (history lin) !! k' = Some (mkResponse StatusCreated (JsonOne rec)) ->
       rec ∈ elems (requests (fst (history (take k lin)))).
Proof.
  intros Hk Hresp. destruct (history_lookup _ _ _ Hk) as [Hs Htake].
  rewrite Hs in Hresp. injection Hresp as Hresp. split.
  - apply (serve_list_content _ (op_now o)). by rewrite Hresp.
  - intros k' rec Hlt Hk'. rewrite history_requests, <- Htake.
    apply (created_lookup _ k'). by rewrite lookup_take_lt.
Qed.

(** ** No goroutine waits for ever *)

Lemma steps_left_dispatch (st : Store) (r : HttpRequest Request) :
  (steps_left st (dispatch r) < len (requests st) + 9)%nat.
Proof.
  destruct (dispatch_shape r) as [[resp ->]|[[f ->]|[p ->]]]; simpl; lia.
Qed.

(** A goroutine that holds the mutex, or finds it free, can take its next
    step, and has then fewer steps left. *)
Lemma solo_step (now : Time) (g : goroutine) (st : Store) (lk : bool) :
  (lk = false /\ in_cs (g_pc g) = false) \/ (lk = true /\ in_cs (g_pc g) = true) ->
  steps_left st (g_pc g) <> 0%nat ->
  exists (p : pc) (st' : Store) (lk' : bool),
    go_step now g st lk = Some (p, st', lk')
    /\ (steps_left st' p < steps_left st (g_pc g))%nat
    /\ ((lk' = false /\ in_cs p = false) \/ (lk' = true /\ in_cs p = true)).
Proof.
  destruct g as [r p0]. unfold go_step. simpl.
  destruct p0 as [|nr|nr|nr|nr|nr|nr|nr|f|f|f rest acc|s|s|resp]; simpl;
    intros [[-> Hcs]|[-> Hcs]] Hne; try discriminate; try done;
    try (do 3 eexists; split; [reflexivity|]; simpl; split; [lia|tauto]).
  - do 3 eexists. split; [reflexivity|]. split; [apply steps_left_dispatch|].
    left. split; [done|apply dispatch_outside].
  - destruct (negb (f =? "")); do 3 eexists;
      (split; [reflexivity|]); simpl; (split; [unfold len; lia|tauto]).
  - destruct rest as [|x rest]; do 3 eexists;
      (split; [reflexivity|]); simpl; (split; [lia|tauto]).
Qed.

Lemma solo_run (n : nat) :
  forall (w : World) (i : nat) (g : goroutine),
    (steps_left (store w) (g_pc g) <= n)%nat ->
    pool w !! i = Some g ->
    (locked w = false /\ in_cs (g_pc g) = false)
    \/ (locked w = true /\ in_cs (g_pc g) = true) ->
    exists (nows : list Time) (w' : World) (resp : Response Request),
      exec w (Sched i <$> nows) = Some w'
      /\ pool w' !! i = Some (mkG (g_req g) (Finished resp))
      /\ locked w' = false
      /\ forall j : nat, j <> i -> pool w' !! j = pool w !! j.
Proof.
  induction n as [|n IH]; intros w i g Hn Hi Hlk.
  - destruct g as [r p0]. simpl in *.
    destruct p0; simpl in Hn; try lia.
    exists [], w, resp. simpl. split; [done|]. split; [done|].
    split; [|done]. by destruct Hlk as [[? _]|[_ ?]].
  - destruct (decide (steps_left (store w) (g_pc g) = 0%nat)) as [Hz|Hnz].
    { apply (IH w i g); [lia|done..]. }
    destruct (solo_step 0 g (store w) (locked w) Hlk Hnz)
      as (p & st' & lk' & Hstep & Hlt & Hlk').
    pose proof (lookup_lt_Some _ _ _ Hi) as Hlen.
    set (w1 := mkWorld st' lk' (<[i := mkG (g_req g) p]> (pool w))).
    destruct (IH w1 i (mkG (g_req g) p)) as (nows & w' & resp & He & Hf & Hl & Hfr).
    + simpl. lia.
    + simpl. by apply list_lookup_insert_eq.
    + done.
    + exists (0 :: nows), w', resp. split; [|split; [done|split; [done|]]].
      * simpl. by rewrite Hi, Hstep.
      * intros j Hj. rewrite (Hfr j Hj). simpl.
        by apply list_lookup_insert_ne.
Qed.

(** Every execution can be continued so that a given goroutine returns its
    answer: whoever holds the mutex runs to its unlock, then the goroutine
    runs. *)
Lemma every_request_can_finish (ls : list label) (w : World) (i : nat)
    (g : goroutine) :
  exec init_world ls = Some w -> pool w !! i = Some g ->
  exists (ls' : list label) (w' : World) (resp : Response Request),
    exec init_world (ls ++ ls') = Some w'
    /\ pool w' !! i = Some (mkG (g_req g) (Finished resp)).
Proof.
  intros He Hi. pose proof (inv_mutex _ _ (inv_reachable _ _ He)) as Hm.
  destruct (in_cs (g_pc g)) eqn:Hcs.
  - destruct (solo_run _ w i g (le_n _) Hi) as (nows & w' & resp & He' & Hf & _).
    { right. split; [by eapply holder_locked|done]. }
    exists (Sched i <$> nows), w', resp. by rewrite exec_app, He.
  - destruct (locked w) eqn:Hl.
    + destruct (proj2 Hm Hl) as (h & gh & Hh & Hch & _).
      destruct (solo_run _ w h gh (le_n _) Hh) as (nows & w1 & resp & He1 & _ & Hl1 & Hfr).
      { by right. }
      assert (Hi1 : pool w1 !! i = Some g).
      { rewrite Hfr; [done|]. intros ->. congruence. }
      destruct (solo_run _ w1 i g (le_n _) Hi1) as (nows' & w' & resp' & He' & Hf & _).
      { by left. }
      exists ((Sched h <$> nows) ++ (Sched i <$> nows')), w', resp'.
      split; [|done]. by rewrite exec_app, He, exec_app, He1.
    + destruct (solo_run _ w i g (le_n _) Hi) as (nows & w' & resp & He' & Hf & _).
      { by left. }
      exists (Sched i <$> nows), w', resp. by rewrite exec_app, He.
Qed.

End ConcurrentFacts.

(** C7.  In every execution of the goroutines, whatever the schedule:
    (a) the operations, taken in the order of their linearization points
        (for a creation the append under the mutex, for a listing its
        unlock), form a run of the one-at-a-time server that ends in the
        store of the execution and gives every finished goroutine exactly
        the answer it returned, each goroutine appearing at most once;
    (b) an operation answered before another one started (its goroutine
        had not arrived, or had not reached [mu.Lock()]) precedes it in
        that run;
    (c) at most one goroutine is between [mu.Lock()] and [mu.Unlock()];
    (d) a listing that started after a creation had released the mutex
        contains the created record, if the record matches its filter;
    (e) whenever the mutex is free or held by a listing, the store is the
        store of the run and is consistent: the counter is one past the
        number of records; and at every moment the record at index [k] has
        id [k + 1] and is a decoded valid payload with id and creation time
        assigned; the answer of a finished listing is the filtered
        collection of a consistent store of a prefix of the run. *)
Theorem store_access_is_linearizable
    (ls : list Concurrent.label) (w : Concurrent.World) :
  Concurrent.exec Concurrent.init_world ls = Some w ->
  let lin := Concurrent.linearization Concurrent.init_world ls in
  let hist := Concurrent.history lin in
  (* a *)
  (fst hist = Concurrent.abs w
   /\ NoDup (Concurrent.op_tid <$> lin)
   /\ forall i g resp,
        Concurrent.pool w !! i = Some g ->
        Concurrent.g_pc g = Concurrent.Finished resp ->
        Concurrent.linearized_as lin (snd hist) i (Concurrent.g_req g) resp)
  (* b *)
  /\ (forall ls1 ls2 w1 i gi respi j,
        ls = ls1 ++ ls2 ->
        Concurrent.exec Concurrent.init_world ls1 = Some w1 ->
        Concurrent.pool w1 !! i = Some gi ->
        Concurrent.g_pc gi = Concurrent.Finished respi ->
        Concurrent.not_started (Concurrent.pool w1 !! j) ->
        forall ki kj oi oj,
          lin !! ki = Some oi -> Concurrent.op_tid oi = i ->
          lin !! kj = Some oj -> Concurrent.op_tid oj = j ->
          (ki < kj)%nat)
  (* c *)
  /\ (forall i j gi gj,
        Concurrent.pool w !! i = Some gi -> Concurrent.pool w !! j = Some gj ->
        Concurrent.in_cs (Concurrent.g_pc gi) = true ->
        Concurrent.in_cs (Concurrent.g_pc gj) = true ->
        i = j)
  (* d *)
  /\ (forall ls1 ls2 w1 i gi rec j gj s,
        ls = ls1 ++ ls2 ->
        Concurrent.exec Concurrent.init_world ls1 = Some w1 ->
        Concurrent.pool w1 !! i = Some gi ->
        Concurrent.append_completed (Concurrent.g_pc gi) rec ->
        Concurrent.not_started (Concurrent.pool w1 !! j) ->
        Concurrent.pool w !! j = Some gj ->
        Concurrent.g_pc gj
        = Concurrent.Finished (mkResponse StatusOK (JsonList s)) ->
        Supplier.spec_MatchesFilter rec
          (supplier_email_param (Concurrent.g_req gj)) = true ->
        rec ∈ elems s)
  (* e *)
  /\ (Concurrent.locked w = false
      \/ (exists j gj, Concurrent.pool w !! j = Some gj
                       /\ Concurrent.in_cs (Concurrent.g_pc gj) = true
                       /\ Concurrent.in_create_cs (Concurrent.g_pc gj) = false) ->
      Concurrent.store w = fst hist /\ Supplier.consistent (Concurrent.store w))
  /\ (forall (k : nat) (x : Supplier.Request),
        elems (Supplier.requests (Concurrent.store w)) !! k = Some x ->
        Supplier.ID x = wrap_int (Z.of_nat k + 1)
        /\ exists o p st0,
             o ∈ lin /\ Body (Concurrent.op_req o) = DecodeOk p
             /\ Supplier.missing_required p = false
             /\ x = Supplier.assign_CreatedAt (Concurrent.op_now o)
                      (Supplier.assign_ID st0 p))
  /\ (forall j gj s,
        Concurrent.pool w !! j = Some gj ->
        Concurrent.g_pc gj
        = Concurrent.Finished (mkResponse StatusOK (JsonList s)) ->
        exists k : nat,
          Supplier.consistent (fst (Concurrent.history (take k lin)))
          /\ s = Supplier.filteredRequests
                   (Supplier.requests (fst (Concurrent.history (take k lin))))
                   (supplier_email_param (Concurrent.g_req gj))).
Proof.
  intros He lin hist.
  pose proof (ConcurrentFacts.inv_reachable _ _ He) as HI.
  fold lin in HI. destruct HI as [Hm Hpc Habs Hlin Hnd Htid]. fold hist in Habs, Hlin.
  assert (Hfin : forall i g resp,
             Concurrent.pool w !! i = Some g ->
             Concurrent.g_pc g = Concurrent.Finished resp ->
             Concurrent.linearized_as lin (snd hist) i (Concurrent.g_req g) resp).
  { intros i g resp Hi Hg. pose proof (Hlin _ _ Hi) as Hl.
    unfold Concurrent.lin_ok in Hl. by rewrite Hg in Hl. }
  split; [done|]. split; [|split; [|split; [|split; [|split]]]].
  - (* b *)
    intros ls1 ls2 w1 i gi respi j -> He1 Hi Hgi Hj ki kj oi oj Hki Hti Hkj Htj.
    pose proof (ConcurrentFacts.inv_reachable _ _ He1) as HI1.
    pose proof (Concurrent.inv_lin _ _ HI1 _ _ Hi) as Hli.
    unfold Concurrent.lin_ok in Hli. rewrite Hgi in Hli.
    destruct (ConcurrentFacts.linearized_before ls1 ls2 w1 i j _ respi He1 Hli
                (ConcurrentFacts.not_started_fresh _ _ _ HI1 Hj))
      as (ki' & oi' & Hki' & Hti' & _ & _ & Hord).
    assert (ki = ki') as ->.
    { eapply ConcurrentFacts.linearized_unique; eauto. congruence. }
    by apply (Hord kj oj).
  - (* c *)
    intros i j gi gj Hi Hj Hci Hcj.
    destruct (decide (j = i)) as [->|Hne]; [done|].
    pose proof (ConcurrentFacts.others_outside _ _ _ _ _ Hm Hi Hci Hj Hne).
    congruence.
  - (* d *)
    intros ls1 ls2 w1 i gi rec j gj s -> He1 Hi Hgi Hj1 Hj Hgj Hmatch.
    pose proof (ConcurrentFacts.inv_reachable _ _ He1) as HI1.
    destruct (ConcurrentFacts.linearized_before ls1 ls2 w1 i j _ _ He1
                (ConcurrentFacts.completed_linearized _ _ _ _ _ HI1 Hi Hgi)
                (ConcurrentFacts.not_started_fresh _ _ _ HI1 Hj1))
      as (ki & oi & Hki & Hti & _ & Hri & Hord).
    destruct (Hfin _ _ _ Hj Hgj) as (kj & oj & Hkj & Htj & Hrj & Hresp).
    destruct (ConcurrentFacts.listing_in_history _ _ _ _ Hkj Hresp) as [Hs Hrec].
    rewrite Hs, SupplierFacts.filteredRequests_spec.
    apply list_elem_of_filter. split; [by rewrite Hrj|].
    apply (Hrec ki); [by apply (Hord kj oj)|done].
  - (* e, the store when no creation holds the mutex *)
    intros Hfree.
    assert (Ha : Concurrent.abs w = Concurrent.store w).
    { destruct Hfree as [Hl|(j & gj & Hj & Hcs & Hnc)].
      - by apply ConcurrentFacts.abs_unlocked.
      - apply (ConcurrentFacts.abs_holder w j gj); try done.
        by destruct (Concurrent.g_pc gj). }
    rewrite <- Ha, <- Habs. split; [done|].
    apply ConcurrentFacts.history_consistent.
  - (* e, the stored records *)
    intros k x Hk.
    rewrite <- ConcurrentFacts.requests_abs, <- Habs in Hk.
    split; [by apply (ConcurrentFacts.history_consistent lin)|].
    apply list_elem_of_lookup_2 in Hk. unfold hist in Hk.
    rewrite ConcurrentFacts.history_requests in Hk.
    apply ConcurrentFacts.created_complete in Hk
      as (now & r & p & st0 & Hin & HB & Hmr & ->).
    apply list_elem_of_In, in_map_iff in Hin as (o & Ho & Hin).
    injection Ho as <- <-.
    exists o, p, st0. split; [by apply list_elem_of_In|done].
  - (* e, the answers of the listings *)
    intros j gj s Hj Hgj.
    destruct (Hfin _ _ _ Hj Hgj) as (kj & oj & Hkj & Htj & Hrj & Hresp).
    destruct (ConcurrentFacts.listing_in_history _ _ _ _ Hkj Hresp) as [Hs _].
    exists kj. split; [apply ConcurrentFacts.history_consistent|].
    by rewrite <- Hrj.
Qed.

Lemma store_access_is_linearizable_witness :
  let post := mkHttpRequest "POST" ""
                (DecodeOk (Supplier.mkRequest 0 "Logo Design" "Acme" "a@acme.com"
                                              "s1@x.com" "" 0)) in
  let get := mkHttpRequest "GET" "s1@x.com" (DecodeError "EOF") in
  let rec1 := Supplier.mkRequest 1 "Logo Design" "Acme" "a@acme.com" "s1@x.com" "" 42 in
  let sched :=
    [Concurrent.Spawn post; Concurrent.Spawn get;
     Concurrent.Sched 0 1; Concurrent.Sched 1 2; Concurrent.Sched 0 3;
     Concurrent.Sched 0 4; Concurrent.Sched 0 42; Concurrent.Sched 0 6;
     Concurrent.Sched 0 7; Concurrent.Sched 0 8; Concurrent.Sched 1 9;
     Concurrent.Sched 0 15;
     Concurrent.Sched 1 10; Concurrent.Sched 1 11; Concurrent.Sched 1 12;
     Concurrent.Sched 1 13; Concurrent.Sched 1 14] in
  let w := Concurrent.mkWorld
             (Supplier.mkStore (mk_slice [rec1]) 2) false
             [Concurrent.mkG post
                (Concurrent.Finished (mkResponse StatusCreated (JsonOne rec1)));
              Concurrent.mkG get
                (Concurrent.Finished
                   (mkResponse StatusOK (JsonList (mk_slice [rec1]))))] in
  Concurrent.exec Concurrent.init_world sched = Some w
  /\ fst (Concurrent.history
            (Concurrent.linearization Concurrent.init_world sched))
     = Concurrent.abs w.
Proof.
  intros post get rec1 sched w.
  assert (He : Concurrent.exec Concurrent.init_world sched = Some w)
    by (vm_compute; reflexivity).
  split; [exact He|].
  exact (proj1 (proj1 (store_access_is_linearizable sched w He))).
Defined.

(** A goroutine that asks for the mutex while another holds it cannot be
    scheduled. *)
Example lock_excludes :
  let post := mkHttpRequest "POST" ""
                (DecodeOk (Supplier.mkRequest 0 "Logo Design" "Acme" "a@acme.com"
                                              "s1@x.com" "" 0)) in
  Concurrent.exec Concurrent.init_world
    [Concurrent.Spawn post; Concurrent.Spawn post;
     Concurrent.Sched 0 1; Concurrent.Sched 1 2; Concurrent.Sched 0 3;
     Concurrent.Sched 1 4] = None.
Proof. vm_compute. reflexivity. Qed.

(** * Further properties of the handlers *)

(** ** The single-email variant, request after request *)

Module BasicRun.
Import Basic BasicInv.

Lemma basic_serve_cases (st : Store) (now : Time) (r : HttpRequest Request) :
  (is_creation r = false
   /\ exists resp, serve st now r = (st, resp) /\ created [resp] = []
                   /\ (Status resp = StatusOK \/ Status resp = StatusBadRequest
                       \/ Status resp = StatusMethodNotAllowed))
  \/ (is_creation r = true
      /\ exists payload,
           Body r = DecodeOk payload /\ missing_required payload = false
           /\ let nr := set_CreatedAt (set_ID payload (nextID st)) now in
              serve st now r
              = (mkStore (append (requests st) nr) (wrap_int (nextID st + 1)),
                 mkResponse StatusCreated (JsonOne nr))).
Proof.
  unfold serve, CORSHandler, RequestsHandler, listRequests, createRequest,
    is_creation.
  destruct (String.eqb_spec (Method r) "OPTIONS") as [E|_].
  { rewrite E. simpl. left. split; [done|]. eexists. split; [done|]. auto. }
  destruct (String.eqb_spec (Method r) "GET") as [E|_].
  { rewrite E. simpl. left. split; [done|]. eexists. split; [done|]. auto. }
  destruct (Method r =? "POST"); simpl.
  - destruct (Body r) as [err|payload].
    + left. split; [done|]. eexists. split; [done|]. auto.
    + destruct (missing_required payload) eqn:Hm; simpl.
      * left. split; [done|]. eexists. split; [done|]. auto.
      * right. split; [done|]. exists payload. auto.
  - left. split; [done|]. eexists. split; [done|]. auto.
Qed.

Lemma basic_consistent_init : consistent init.
Proof. split; [reflexivity|]. intros k r H. by destruct k. Qed.

Lemma basic_consistent_create (st : Store) (now : Time) (payload : Request) :
  consistent st ->
  consistent (mkStore (append (requests st)
                         (set_CreatedAt (set_ID payload (nextID st)) now))
                      (wrap_int (nextID st + 1))).
Proof.
  intros [Hn Hid]. split.
  - simpl. rewrite len_append, Hn, wrap_int_idemp_succ. f_equal. lia.
  - intros k r. simpl. intros Hk.
    apply lookup_app_Some in Hk as [Hk|[Hlen Hk]]; [by apply Hid|].
    apply list_lookup_singleton_Some in Hk as [Hk <-]. simpl.
    rewrite Hn. f_equal. unfold len. lia.
Qed.

(** A run appends the records of its 201 answers, in order, to what was
    stored; consistency is kept. *)
Lemma basic_run_appends (ins : list (Time * HttpRequest Request)) :
  forall (st st' : Store) (resps : list (Response Request)),
    run st ins = (st', resps) ->
    elems (requests st') = elems (requests st) ++ created resps
    /\ length resps = length ins
    /\ (consistent st -> consistent st').
Proof.
  induction ins as [|[now r] ins IH]; intros st st' resps Hrun; simpl in Hrun.
  - inversion Hrun; subst. by rewrite app_nil_r.
  - destruct (serve st now r) as [st1 resp] eqn:Hs.
    destruct (run st1 ins) as [st2 resps2] eqn:Hr.
    inversion Hrun; subst. rewrite created_cons.
    destruct (IH _ _ _ Hr) as (Hel & Hlen & Hc).
    destruct (basic_serve_cases st now r)
      as [(_ & resp' & E & Hnone & _)|(_ & payload & _ & _ & E)].
    + rewrite E in Hs. inversion Hs; subst.
      rewrite Hnone. simpl. split; [done|]. split; [lia|done].
    + simpl in E. rewrite E in Hs. inversion Hs; subst. clear Hs.
      split; [|split; [simpl; lia|]].
      * rewrite Hel. simpl. by rewrite <- app_assoc.
      * intros Hc0. by apply Hc, basic_consistent_create.
Qed.

Lemma basic_consistent_ids (st : Store) :
  consistent st ->
  Z.of_nat (len (requests st)) < max_int ->
  nextID st = Z.of_nat (len (requests st)) + 1
  /\ map ID (elems (requests st)) = map Z.of_nat (seq 1 (len (requests st))).
Proof.
  intros [Hn Hid] Hb.
  assert (Hk : forall (k : nat) r, elems (requests st) !! k = Some r ->
                                   ID r = Z.of_nat k + 1).
  { intros k r Hk. rewrite (Hid _ _ Hk).
    apply lookup_lt_Some in Hk. unfold len in Hb.
    apply wrap_int_small. unfold min_int, max_int, int_bits in *. lia. }
  split.
  - rewrite Hn. apply wrap_int_small.
    unfold min_int, max_int, int_bits in *. lia.
  - apply list_eq. intros k. rewrite !list_lookup_fmap.
    destruct (elems (requests st) !! k) as [r|] eqn:E; simpl.
    + rewrite (Hk _ _ E). apply lookup_lt_Some in E.
      rewrite lookup_seq_lt by (unfold len; lia). simpl. f_equal. lia.
    + apply lookup_ge_None in E. rewrite lookup_seq_ge by (unfold len; lia). done.
Qed.

End BasicRun.

(** X1.  [src/main.go]: after any sequence of requests served from the
    empty store, [N] of them successful creations ([N] below the largest
    [int]), the stored records are exactly the records of the 201 answers
    in the order of these answers, their ids are 1, 2, ..., N, and the
    counter is [N + 1]; a listing returns this very sequence. *)
Theorem basic_ids_and_listing
    (ins : list (Time * HttpRequest Basic.Request))
    (st : Basic.Store) (resps : list (Response Basic.Request))
    (q : HttpRequest Basic.Request) :
  Basic.run Basic.init ins = (st, resps) ->
  Z.of_nat (length (created resps)) < max_int ->
  elems (Basic.requests st) = created resps
  /\ map Basic.ID (elems (Basic.requests st))
     = map Z.of_nat (seq 1 (length (created resps)))
  /\ Basic.nextID st = Z.of_nat (length (created resps)) + 1
  /\ exists s, Basic.listRequests st q = (st, mkResponse StatusOK (JsonList s))
               /\ elems s = created resps.
Proof.
  intros Hrun Hb.
  destruct (BasicRun.basic_run_appends ins _ _ _ Hrun) as (Hel & _ & Hc).
  simpl in Hel. specialize (Hc BasicRun.basic_consistent_init).
  assert (Hlen : len (Basic.requests st) = length (created resps)).
  { unfold len. by rewrite Hel. }
  destruct (BasicRun.basic_consistent_ids st Hc) as (Hn & Hids).
  { by rewrite Hlen. }
  rewrite Hlen in Hn, Hids.
  split; [done|]. split; [done|]. split; [done|].
  exists (Basic.requests st). split; [reflexivity|done].
Qed.

Lemma basic_ids_and_listing_witness :
  let mk t := (5, mkHttpRequest "POST" "ignored"
                    (DecodeOk (Basic.mkRequest 9 t "Acme" "a@acme.com" "" 3))) in
  let ins := [mk "Logo"; mk ""; mk "Site"] in
  map Basic.ID (elems (Basic.requests (fst (Basic.run Basic.init ins)))) = [1; 2]
  /\ Basic.nextID (fst (Basic.run Basic.init ins)) = 3.
Proof.
  intros mk ins.
  destruct (basic_ids_and_listing ins (fst (Basic.run Basic.init ins))
              (snd (Basic.run Basic.init ins))
              (mkHttpRequest "GET" "" (DecodeError "EOF")))
    as (_ & Hids & Hn & _).
  - reflexivity.
  - reflexivity.
  - split; [exact Hids | exact Hn].
Defined.

(** ** The supplier-aware variant, request after request *)

Module SupplierMore.
Import Supplier SupplierInv SupplierFacts SupplierRun.

Lemma serve_by_kind (st : Store) (now : Time) (r : HttpRequest Request) :
  (is_creation r = false
   /\ exists resp, serve st now r = (st, resp) /\ created [resp] = []
                   /\ (Status resp = StatusOK \/ Status resp = StatusBadRequest
                       \/ Status resp = StatusMethodNotAllowed))
  \/ (is_creation r = true
      /\ exists payload,
           Body r = DecodeOk payload /\ missing_required payload = false
           /\ let nr := assign_CreatedAt now (assign_ID st payload) in
              serve st now r
              = (incr_nextID (append_request st nr),
                 mkResponse StatusCreated (JsonOne nr))).
Proof.
  unfold serve, CORSHandler, RequestsHandler, listRequests, createRequest,
    is_creation.
  destruct (String.eqb_spec (Method r) "OPTIONS") as [E|_].
  { rewrite E. simpl. left. split; [done|]. eexists. split; [done|]. auto. }
  destruct (String.eqb_spec (Method r) "GET") as [E|_].
  { rewrite E. simpl. left. split; [done|]. eexists. split; [done|]. auto. }
  destruct (Method r =? "POST"); simpl.
  - destruct (Body r) as [err|payload].
    + left. split; [done|]. eexists. split; [done|]. auto.
    + destruct (missing_required payload) eqn:Hm; simpl.
      * left. split; [done|]. eexists. split; [done|]. auto.
      * right. split; [done|]. exists payload. auto.
  - left. split; [done|]. eexists. split; [done|]. auto.
Qed.

Lemma supplier_run_appends (ins : list (Time * HttpRequest Request)) :
  forall (st st' : Store) (resps : list (Response Request)),
    run st ins = (st', resps) ->
    elems (requests st') = elems (requests st) ++ created resps.
Proof.
  induction ins as [|[now r] ins IH]; intros st st' resps Hrun; simpl in Hrun.
  - inversion Hrun; subst. by rewrite app_nil_r.
  - destruct (serve st now r) as [st1 resp] eqn:Hs.
    destruct (run st1 ins) as [st2 resps2] eqn:Hr.
    inversion Hrun; subst. rewrite created_cons, (IH _ _ _ Hr).
    destruct (serve_by_kind st now r)
      as [(_ & resp' & E & Hnone & _)|(_ & payload & _ & _ & E)].
    + rewrite E in Hs. inversion Hs; subst. by rewrite Hnone.
    + simpl in E. rewrite E in Hs. inversion Hs; subst.
      simpl. by rewrite <- app_assoc.
Qed.

End SupplierMore.

(** X2.  Only a POST whose body decodes to a payload with every mandatory
    field writes: it appends one record, advances the counter and is
    answered 201.  Every other request (OPTIONS, GET, any other method, a
    POST with an undecodable body or an empty mandatory field) returns the
    store it received and is answered 200, 400 or 405.  Both variants. *)
Theorem only_valid_post_writes :
  (forall (st : Supplier.Store) (now : Time)
          (r : HttpRequest Supplier.Request),
     (SupplierInv.is_creation r = true ->
      exists rec,
        Supplier.serve st now r
        = (Supplier.mkStore (mk_slice (elems (Supplier.requests st) ++ [rec]))
                            (wrap_int (Supplier.nextID st + 1)),
           mkResponse StatusCreated (JsonOne rec)))
     /\ (SupplierInv.is_creation r = false ->
         fst (Supplier.serve st now r) = st
         /\ (Status (snd (Supplier.serve st now r)) = StatusOK
             \/ Status (snd (Supplier.serve st now r)) = StatusBadRequest
             \/ Status (snd (Supplier.serve st now r)) = StatusMethodNotAllowed)))
  /\ (forall (st : Basic.Store) (now : Time) (r : HttpRequest Basic.Request),
        (BasicInv.is_creation r = true ->
         exists rec,
           Basic.serve st now r
           = (Basic.mkStore (mk_slice (elems (Basic.requests st) ++ [rec]))
                            (wrap_int (Basic.nextID st + 1)),
              mkResponse StatusCreated (JsonOne rec)))
        /\ (BasicInv.is_creation r = false ->
            fst (Basic.serve st now r) = st
            /\ (Status (snd (Basic.serve st now r)) = StatusOK
                \/ Status (snd (Basic.serve st now r)) = StatusBadRequest
                \/ Status (snd (Basic.serve st now r)) = StatusMethodNotAllowed))).
Proof.
  split.
  - intros st now r.
    destruct (SupplierMore.serve_by_kind st now r)
      as [(Hk & resp & E & _ & Hst)|(Hk & payload & _ & _ & E)];
      rewrite Hk; (split; [|]); try discriminate; intros _.
    + by rewrite E.
    + simpl in E. rewrite E. eexists. reflexivity.
  - intros st now r.
    destruct (BasicRun.basic_serve_cases st now r)
      as [(Hk & resp & E & _ & Hst)|(Hk & payload & _ & _ & E)];
      rewrite Hk; (split; [|]); try discriminate; intros _.
    + by rewrite E.
    + simpl in E. rewrite E. eexists. reflexivity.
Qed.

(** X3.  The store after a sequence of requests is the store after its
    valid creations alone, in the same order and with the same clock
    readings: listings, preflights, rejected creations and requests with
    other methods can be dropped or inserted anywhere without effect on
    what is stored.  Both variants. *)
Theorem store_depends_on_creations_only :
  (forall (ins : list (Time * HttpRequest Supplier.Request))
          (st : Supplier.Store),
     fst (Supplier.run st ins)
     = fst (Supplier.run st
              (List.filter (fun i => SupplierInv.is_creation (snd i)) ins)))
  /\ (forall (ins : list (Time * HttpRequest Basic.Request)) (st : Basic.Store),
        fst (Basic.run st ins)
        = fst (Basic.run st
                 (List.filter (fun i => BasicInv.is_creation (snd i)) ins))).
Proof.
  split.
  - induction ins as [|[now r] ins IH]; intros st; simpl; [done|].
    destruct (SupplierMore.serve_by_kind st now r)
      as [(Hk & resp & E & _)|(Hk & payload & _ & _ & E)]; rewrite Hk.
    + rewrite E. specialize (IH st).
      destruct (Supplier.run st ins). simpl in *. done.
    + simpl. destruct (Supplier.serve st now r) as [st1 resp].
      specialize (IH st1).
      destruct (Supplier.run st1 ins), (Supplier.run st1 _). simpl in *. done.
  - induction ins as [|[now r] ins IH]; intros st; simpl; [done|].
    destruct (BasicRun.basic_serve_cases st now r)
      as [(Hk & resp & E & _)|(Hk & payload & _ & _ & E)]; rewrite Hk.
    + rewrite E. specialize (IH st).
      destruct (Basic.run st ins). simpl in *. done.
    + simpl. destruct (Basic.serve st now r) as [st1 resp].
      specialize (IH st1).
      destruct (Basic.run st1 ins), (Basic.run st1 _). simpl in *. done.
Qed.

(** X4.  The collection is append-only: after any sequence of requests,
    from any store, it is what it was followed by the records of the 201
    answers in order; so a record keeps its index and all its fields, and
    nothing is ever removed.  Both variants. *)
Theorem collection_is_append_only :
  (forall (ins : list (Time * HttpRequest Supplier.Request))
          (st : Supplier.Store),
     elems (Supplier.requests (fst (Supplier.run st ins)))
     = elems (Supplier.requests st) ++ created (snd (Supplier.run st ins))
     /\ forall (k : nat) (x : Supplier.Request),
          elems (Supplier.requests st) !! k = Some x ->
          elems (Supplier.requests (fst (Supplier.run st ins))) !! k = Some x)
  /\ (forall (ins : list (Time * HttpRequest Basic.Request)) (st : Basic.Store),
        elems (Basic.requests (fst (Basic.run st ins)))
        = elems (Basic.requests st) ++ created (snd (Basic.run st ins))
        /\ forall (k : nat) (x : Basic.Request),
             elems (Basic.requests st) !! k = Some x ->
             elems (Basic.requests (fst (Basic.run st ins))) !! k = Some x).
Proof.
  split.
  - intros ins st. destruct (Supplier.run st ins) as [st' resps] eqn:E.
    pose proof (SupplierMore.supplier_run_appends _ _ _ _ E) as H. simpl.
    split; [done|]. intros k x Hk. rewrite H. by apply lookup_app_l_Some.
  - intros ins st. destruct (Basic.run st ins) as [st' resps] eqn:E.
    destruct (BasicRun.basic_run_appends _ _ _ _ E) as (H & _). simpl.
    split; [done|]. intros k x Hk. rewrite H. by apply lookup_app_l_Some.
Qed.

(** ** What is stored is valid, and each supplier finds its records *)

Module StoredRecords.

Lemma supplier_created_valid (ins : list (Time * HttpRequest Supplier.Request)) :
  forall (st : Supplier.Store) (x : Supplier.Request),
    x ∈ created (snd (Supplier.run st ins)) ->
    Supplier.missing_required x = false.
Proof.
  induction ins as [|[now r] ins IH]; intros st x; simpl.
  - intros Hx. by apply elem_of_nil in Hx.
  - destruct (Supplier.serve st now r) as [st1 resp] eqn:Hs.
    specialize (IH st1 x). destruct (Supplier.run st1 ins) as [st2 resps].
    change (snd (st2, resp :: resps)) with (resp :: resps).
    change (snd (st2, resps)) with resps in IH.
    rewrite created_cons. intros Hx. apply elem_of_app in Hx as [Hx|Hx]; [|auto].
    destruct (SupplierMore.serve_by_kind st now r)
      as [(_ & resp' & E & Hn & _)|(_ & p & _ & Hm & E)].
    + rewrite E in Hs. injection Hs as <- <-. rewrite Hn in Hx.
      by apply elem_of_nil in Hx.
    + simpl in E. rewrite E in Hs. injection Hs as <- <-.
      apply list_elem_of_singleton in Hx as ->. exact Hm.
Qed.

Lemma basic_created_valid (ins : list (Time * HttpRequest Basic.Request)) :
  forall (st : Basic.Store) (x : Basic.Request),
    x ∈ created (snd (Basic.run st ins)) ->
    Basic.missing_required x = false.
Proof.
  induction ins as [|[now r] ins IH]; intros st x; simpl.
  - intros Hx. by apply elem_of_nil in Hx.
  - destruct (Basic.serve st now r) as [st1 resp] eqn:Hs.
    specialize (IH st1 x). destruct (Basic.run st1 ins) as [st2 resps].
    change (snd (st2, resp :: resps)) with (resp :: resps).
    change (snd (st2, resps)) with resps in IH.
    rewrite created_cons. intros Hx. apply elem_of_app in Hx as [Hx|Hx]; [|auto].
    destruct (BasicRun.basic_serve_cases st now r)
      as [(_ & resp' & E & Hn & _)|(_ & p & _ & Hm & E)].
    + rewrite E in Hs. injection Hs as <- <-. rewrite Hn in Hx.
      by apply elem_of_nil in Hx.
    + simpl in E. rewrite E in Hs. injection Hs as <- <-.
      apply list_elem_of_singleton in Hx as ->. exact Hm.
Qed.

(** The loop of [listRequests] ends with the nil slice exactly when it
    started with it and met no matching record. *)
Lemma filter_loop_nil (f : string) (l : list Supplier.Request)
    (acc : slice Supplier.Request) :
  fold_left (Supplier.filter_step f) l acc = nil_slice
  <-> acc = nil_slice
      /\ forall x, x ∈ l -> Supplier.SupplierEmail x <> f.
Proof.
  revert acc. induction l as [|y l IH]; intros acc; simpl.
  - split; [|tauto]. intros ->. split; [done|].
    intros x Hx. by apply elem_of_nil in Hx.
  - rewrite IH. unfold Supplier.filter_step.
    destruct (String.eqb_spec (Supplier.SupplierEmail y) f) as [E|E].
    + split; [intros [H _]; discriminate H|].
      intros [_ H]. destruct (H y); [left|done].
    + split.
      * intros [-> H]. split; [done|]. intros x Hx.
        apply elem_of_cons in Hx as [->|Hx]; auto.
      * intros [-> H]. split; [done|]. intros x Hx. apply H. by right.
Qed.

Lemma run_never_nil (ins : list (Time * HttpRequest Supplier.Request)) :
  forall st : Supplier.Store,
    Supplier.requests st <> nil_slice ->
    Supplier.requests (fst (Supplier.run st ins)) <> nil_slice.
Proof.
  induction ins as [|[now r] ins IH]; intros st Hst; simpl; [done|].
  destruct (Supplier.serve st now r) as [st1 resp] eqn:Hs.
  specialize (IH st1). destruct (Supplier.run st1 ins) as [st2 resps].
  simpl in *. apply IH.
  destruct (SupplierMore.serve_by_kind st now r)
    as [(_ & resp' & E & _)|(_ & p & _ & _ & E)].
  - rewrite E in Hs. by injection Hs as <- <-.
  - simpl in E. rewrite E in Hs. injection Hs as <- <-. discriminate.
Qed.

End StoredRecords.

(** X5.  Every record stored by a sequence of requests served from the
    empty store has its mandatory fields non-empty; in the supplier-aware
    variant the listing filtered by the record's own supplier e-mail
    therefore contains it. *)
Theorem stored_records_are_valid
    (ins : list (Time * HttpRequest Supplier.Request))
    (st : Supplier.Store) (resps : list (Response Supplier.Request))
    (x : Supplier.Request) :
  Supplier.run Supplier.init ins = (st, resps) ->
  x ∈ elems (Supplier.requests st) ->
  (Supplier.GigTitle x <> "" /\ Supplier.Client x <> ""
   /\ Supplier.ClientEmail x <> "" /\ Supplier.SupplierEmail x <> "")
  /\ x ∈ elems (Supplier.filteredRequests (Supplier.requests st)
                  (Supplier.SupplierEmail x))
  /\ (forall (bins : list (Time * HttpRequest Basic.Request)) (y : Basic.Request),
        y ∈ elems (Basic.requests (fst (Basic.run Basic.init bins))) ->
        Basic.GigTitle y <> "" /\ Basic.Client y <> "" /\ Basic.Email y <> "").
Proof.
  intros Hrun Hx.
  pose proof (SupplierMore.supplier_run_appends _ _ _ _ Hrun) as Hel. simpl in Hel.
  assert (Hv : Supplier.missing_required x = false).
  { apply (StoredRecords.supplier_created_valid ins Supplier.init).
    rewrite Hrun. simpl. by rewrite <- Hel. }
  unfold Supplier.missing_required in Hv.
  rewrite !orb_false_iff in Hv. destruct Hv as [[[H1 H2] H3] H4].
  apply String.eqb_neq in H1, H2, H3, H4.
  split; [done|]. split.
  - rewrite SupplierFacts.filteredRequests_nonempty by done.
    by apply list_elem_of_filter.
  - intros bins y Hy.
    destruct (Basic.run Basic.init bins) as [bst bresps] eqn:E.
    destruct (BasicRun.basic_run_appends _ _ _ _ E) as (Hbel & _).
    simpl in Hy, Hbel. rewrite Hbel in Hy.
    assert (Hbv : Basic.missing_required y = false).
    { apply (StoredRecords.basic_created_valid bins Basic.init).
      by rewrite E. }
    unfold Basic.missing_required in Hbv.
    rewrite !orb_false_iff in Hbv. destruct Hbv as [[B1 B2] B3].
    by apply String.eqb_neq in B1, B2, B3.
Qed.

Lemma stored_records_are_valid_witness :
  let p := Supplier.mkRequest 0 "Logo" "Acme" "a@acme.com" "s1@x.com" "" 0 in
  let ins := [(5, mkHttpRequest "POST" "" (DecodeOk p))] in
  let x := Supplier.mkRequest 1 "Logo" "Acme" "a@acme.com" "s1@x.com" "" 5 in
  x ∈ elems (Supplier.filteredRequests
               (Supplier.requests (fst (Supplier.run Supplier.init ins)))
               (Supplier.SupplierEmail x)).
Proof.
  intros p ins x.
  refine (proj1 (proj2 (stored_records_are_valid ins
                          (fst (Supplier.run Supplier.init ins))
                          (snd (Supplier.run Supplier.init ins)) x _ _))).
  - reflexivity.
  - apply list_elem_of_In. simpl. left. reflexivity.
Defined.

(** X6.  After any sequence of requests served from the empty store, the
    slice a listing encodes is Go's nil slice exactly when the filter is
    non-empty and no stored record has that supplier e-mail; without a
    filter it is never nil, not even on the empty store. *)
Theorem listing_is_nil_iff_filter_matches_nothing
    (ins : list (Time * HttpRequest Supplier.Request))
    (st : Supplier.Store) (resps : list (Response Supplier.Request))
    (f : string) :
  Supplier.run Supplier.init ins = (st, resps) ->
  Supplier.filteredRequests (Supplier.requests st) f = nil_slice
  <-> (f <> ""
       /\ forall x, x ∈ elems (Supplier.requests st) ->
                    Supplier.SupplierEmail x <> f).
Proof.
  intros Hrun.
  assert (Hnn : Supplier.requests st <> nil_slice).
  { pose proof (StoredRecords.run_never_nil ins Supplier.init) as H.
    rewrite Hrun in H. apply H. discriminate. }
  unfold Supplier.filteredRequests.
  destruct (String.eqb_spec f "") as [->|Hf]; simpl.
  - split; [done|]. intros [H _]. done.
  - rewrite StoredRecords.filter_loop_nil. tauto.
Qed.

Lemma listing_is_nil_iff_filter_matches_nothing_witness :
  Supplier.filteredRequests
    (Supplier.requests (fst (Supplier.run Supplier.init []))) "s1@x.com"
  = nil_slice
  /\ Supplier.filteredRequests
       (Supplier.requests (fst (Supplier.run Supplier.init []))) ""
     = mk_slice [].
Proof.
  split; [|reflexivity].
  apply (listing_is_nil_iff_filter_matches_nothing [] Supplier.init [] "s1@x.com").
  - reflexivity.
  - split; [discriminate|]. intros x Hx. by apply elem_of_nil in Hx.
Defined.

(** ** Creation times *)

Module CreationTimes.




End CreationTimes.



(** ** The calls on the response writer *)

(** X8.  The handlers with their calls on the response writer agree with
    the handlers above: the store they return is the same, the first status
    they write is the status of the answer, and the first value they hand
    to [http.Error] or to the encoder is its content.  In particular a
    failing encoder changes neither the store nor the status.  Both
    variants. *)
Theorem writer_calls_agree_with_answers :
  (forall (st : Supplier.Store) (now : Time) (enc_ok : bool)
          (r : HttpRequest Supplier.Request),
     fst (SupplierWire.serve st now enc_ok r) = fst (Supplier.serve st now r)
     /\ status_of (snd (SupplierWire.serve st now enc_ok r))
        = Some (Status (snd (Supplier.serve st now r)))
     /\ body_of (snd (SupplierWire.serve st now enc_ok r))
        = Content (snd (Supplier.serve st now r)))
  /\ (forall (st : Basic.Store) (now : Time) (enc_ok : bool)
             (r : HttpRequest Basic.Request),
        fst (BasicWire.serve st now enc_ok r) = fst (Basic.serve st now r)
        /\ status_of (snd (BasicWire.serve st now enc_ok r))
           = Some (Status (snd (Basic.serve st now r)))
        /\ body_of (snd (BasicWire.serve st now enc_ok r))
           = Content (snd (Basic.serve st now r))).
Proof.
  split.
  - intros st now enc_ok r.
    unfold SupplierWire.serve, SupplierWire.CORSHandler,
      SupplierWire.RequestsHandler, SupplierWire.listRequests,
      SupplierWire.createRequest, Supplier.serve, Supplier.CORSHandler,
      Supplier.RequestsHandler, Supplier.listRequests, Supplier.createRequest.
    destruct (Method r =? "OPTIONS"); [done|].
    destruct (Method r =? "GET"); [by destruct enc_ok|].
    destruct (Method r =? "POST"); [|done].
    destruct (Body r) as [err|p]; [done|].
    destruct (Supplier.missing_required p); [done|]. by destruct enc_ok.
  - intros st now enc_ok r.
    unfold BasicWire.serve, BasicWire.CORSHandler,
      BasicWire.RequestsHandler, BasicWire.listRequests,
      BasicWire.createRequest, Basic.serve, Basic.CORSHandler,
      Basic.RequestsHandler, Basic.listRequests, Basic.createRequest.
    destruct (Method r =? "OPTIONS"); [done|].
    destruct (Method r =? "GET"); [by destruct enc_ok|].
    destruct (Method r =? "POST"); [|done].
    destruct (Body r) as [err|p]; [done|].
    destruct (Basic.missing_required p); [done|]. by destruct enc_ok.
Qed.


(** X10.  When the encoder fails: a valid creation is stored all the same
    and its status stays 201, the handler only logs and never calls
    [http.Error]; a listing calls [http.Error] with 500, but only after it
    has written status 200, which therefore stays the status.  Both
    variants. *)
Theorem encoder_failure_is_only_logged :
  (forall (st : Supplier.Store) (now : Time)
          (r : HttpRequest Supplier.Request),
     let out := SupplierWire.serve st now false r in
     (SupplierInv.is_creation r = true ->
      len (Supplier.requests (fst out)) = S (len (Supplier.requests st))
      /\ status_of (snd out) = Some StatusCreated
      /\ LogPrintf LogEncodingError ∈ snd out
      /\ forall msg code, HttpError msg code ∉ snd out)
     /\ (Method r = "GET" ->
         fst out = st
         /\ status_of (snd out) = Some StatusOK
         /\ last (snd out)
            = Some (HttpError "Internal Server Error" StatusInternalServerError)))
  /\ (forall (st : Basic.Store) (now : Time) (r : HttpRequest Basic.Request),
        let out := BasicWire.serve st now false r in
        (BasicInv.is_creation r = true ->
         len (Basic.requests (fst out)) = S (len (Basic.requests st))
         /\ status_of (snd out) = Some StatusCreated
         /\ LogPrintf LogEncodingError ∈ snd out
         /\ forall msg code, HttpError msg code ∉ snd out)
        /\ (Method r = "GET" ->
            fst out = st
            /\ status_of (snd out) = Some StatusOK
            /\ last (snd out)
               = Some (HttpError "Internal Server Error"
                                 StatusInternalServerError))).
Proof.
  split.
  - intros st now r. simpl.
    unfold SupplierWire.serve, SupplierWire.CORSHandler,
      SupplierWire.RequestsHandler, SupplierWire.listRequests,
      SupplierWire.createRequest, SupplierInv.is_creation.
    split.
    + destruct (String.eqb_spec (Method r) "POST") as [E|]; [|done].
      rewrite E. simpl. destruct (Body r) as [err|p]; [done|].
      destruct (Supplier.missing_required p); [done|]. intros _. simpl.
      split; [by rewrite len_append|]. split; [done|]. split.
      * apply list_elem_of_In. simpl. tauto.
      * intros msg code Hin. apply list_elem_of_In in Hin. simpl in Hin.
        repeat (destruct Hin as [Hin|Hin]; [discriminate Hin|]). done.
    + by intros ->.
  - intros st now r. simpl.
    unfold BasicWire.serve, BasicWire.CORSHandler,
      BasicWire.RequestsHandler, BasicWire.listRequests,
      BasicWire.createRequest, BasicInv.is_creation.
    split.
    + destruct (String.eqb_spec (Method r) "POST") as [E|]; [|done].
      rewrite E. simpl. destruct (Body r) as [err|p]; [done|].
      destruct (Basic.missing_required p); [done|]. intros _. simpl.
      split; [by rewrite len_append|]. split; [done|]. split.
      * apply list_elem_of_In. simpl. tauto.
      * intros msg code Hin. apply list_elem_of_In in Hin. simpl in Hin.
        repeat (destruct Hin as [Hin|Hin]; [discriminate Hin|]). done.
    + by intros ->.
Qed.

(** ** Start-up *)

Lemma listenAddr_unfold (env_PORT : string) :
  Startup.listenAddr env_PORT
  = String ":"%char (if env_PORT =? "" then "8080" else env_PORT).
Proof. reflexivity. Qed.

(** X11.  The address the deployed variant listens on is a colon followed
    by a non-empty port: the value of [PORT] as it is when it is set and
    non-empty (nothing checks that it is a number), and 8080 otherwise;
    different non-empty values give different addresses, and the address
    is the fixed one of [src/main.go] exactly for an unset or empty [PORT]
    and for [PORT=8080]. *)
Theorem listen_address (env_PORT : string) :
  (exists port, Startup.listenAddr env_PORT = String ":"%char port /\ port <> ""
                /\ (env_PORT <> "" -> port = env_PORT)
                /\ (env_PORT = "" -> port = "8080"))
  /\ (Startup.listenAddr env_PORT = Startup.fixed_port
      <-> env_PORT = "" \/ env_PORT = "8080")
  /\ (forall other : string,
        env_PORT <> "" -> other <> "" ->
        Startup.listenAddr env_PORT = Startup.listenAddr other ->
        env_PORT = other).
Proof.
  unfold Startup.fixed_port. split; [|split].
  - rewrite listenAddr_unfold.
    destruct (String.eqb_spec env_PORT "") as [->|Hne].
    + exists "8080". repeat split; done.
    + exists env_PORT. repeat split; done.
  - rewrite listenAddr_unfold.
    destruct (String.eqb_spec env_PORT "") as [->|Hne].
    + split; auto.
    + split.
      * intros [= ->]. by right.
      * intros [->| ->]; done.
  - intros other Hne Hno. rewrite !listenAddr_unfold.
    rewrite (string_eqb_nonempty _ Hne), (string_eqb_nonempty _ Hno).
    by intros [= ->].
Qed.

(** ** More on the concurrent executions *)

Module ConcurrentMore.
Import Supplier SupplierFacts SupplierRun Concurrent ConcurrentFacts.

Lemma created_app {R} (a b : list (Response R)) :
  created (a ++ b) = created a ++ created b.
Proof. unfold created. apply omap_app. Qed.

(** The record of the [k]-th answer, a 201, comes in the list of created
    records right after those of the earlier answers. *)
Lemma created_position {R} (resps : list (Response R)) (k : nat) (rec : R) :
  resps !! k = Some (mkResponse StatusCreated (JsonOne rec)) ->
  created resps
  = created (take k resps) ++ rec :: created (drop (S k) resps).
Proof.
  intros Hk. rewrite <- (take_drop_middle resps k _ Hk) at 1.
  by rewrite created_app, created_cons.
Qed.

Lemma created_take_lt {R} (resps : list (Response R)) (k1 k2 : nat) (rec : R) :
  (k1 < k2)%nat ->
  resps !! k1 = Some (mkResponse StatusCreated (JsonOne rec)) ->
  (length (created (take k1 resps)) < length (created (take k2 resps)))%nat.
Proof.
  intros Hlt Hk.
  assert (Hk2 : take k2 resps !! k1 = Some (mkResponse StatusCreated (JsonOne rec)))
    by (by rewrite lookup_take_lt).
  rewrite (created_position _ _ _ Hk2), take_take, Nat.min_l by lia.
  rewrite length_app. simpl. lia.
Qed.

Lemma created_take_prefix {R} (resps : list (Response R)) (k : nat) :
  created (take k resps) = take (length (created (take k resps))) (created resps).
Proof.
  rewrite <- (take_drop k resps) at 3.
  by rewrite created_app, take_app_length.
Qed.

(** The store of an execution holds the records of the 201 answers of its
    sequential history. *)
Lemma store_requests (w : World) (lin : list lin_op) :
  Inv w lin -> elems (requests (store w)) = created (snd (history lin)).
Proof.
  intros HI.
  by rewrite <- requests_abs, <- (inv_abs _ _ HI), history_requests.
Qed.

(** Where the record of a completed creation is stored. *)
Lemma completed_position (w : World) (lin : list lin_op) (i : nat)
    (g : goroutine) (rec : Request) :
  Inv w lin -> pool w !! i = Some g -> append_completed (g_pc g) rec ->
  exists (k : nat) (o : lin_op),
    lin !! k = Some o /\ op_tid o = i
    /\ snd (history lin) !! k = Some (mkResponse StatusCreated (JsonOne rec))
    /\ elems (requests (store w))
         !! length (created (take k (snd (history lin)))) = Some rec.
Proof.
  intros HI Hi Hc.
  destruct (completed_linearized _ _ _ _ _ HI Hi Hc) as (k & o & Hk & Ht & _ & Hr).
  exists k, o. split; [done|]. split; [done|]. split; [done|].
  rewrite (store_requests _ _ HI), (created_position _ _ _ Hr).
  by rewrite lookup_app_r, Nat.sub_diag.
Qed.

End ConcurrentMore.

(** X12.  Under every schedule, as long as the number of stored records is
    below the largest [int]: the record a completed creation answers with
    is stored at the index its id names (id minus one), and two different
    goroutines whose creations are completed hold different ids. *)
Theorem ids_unique_under_concurrency
    (ls : list Concurrent.label) (w : Concurrent.World)
    (i : nat) (gi : Concurrent.goroutine) (ri : Supplier.Request) :
  Concurrent.exec Concurrent.init_world ls = Some w ->
  Z.of_nat (len (Supplier.requests (Concurrent.store w))) < max_int ->
  Concurrent.pool w !! i = Some gi ->
  Concurrent.append_completed (Concurrent.g_pc gi) ri ->
  (1 <= Supplier.ID ri <= Z.of_nat (len (Supplier.requests (Concurrent.store w)))
   /\ elems (Supplier.requests (Concurrent.store w))
        !! Z.to_nat (Supplier.ID ri - 1) = Some ri)
  /\ forall (j : nat) (gj : Concurrent.goroutine) (rj : Supplier.Request),
       Concurrent.pool w !! j = Some gj ->
       Concurrent.append_completed (Concurrent.g_pc gj) rj ->
       i <> j -> Supplier.ID ri <> Supplier.ID rj.
Proof.
  intros He Hb Hi Hci.
  pose proof (ConcurrentFacts.inv_reachable _ _ He) as HI.
  set (lin := Concurrent.linearization Concurrent.init_world ls) in *.
  set (resps := snd (Concurrent.history lin)).
  assert (Hid : forall (k : nat) (r : Supplier.Request),
             elems (Supplier.requests (Concurrent.store w)) !! k = Some r ->
             Supplier.ID r = Z.of_nat k + 1).
  { intros k r Hk.
    assert (Hw : Supplier.ID r = wrap_int (Z.of_nat k + 1)).
    { rewrite <- ConcurrentFacts.requests_abs, <- (Concurrent.inv_abs _ _ HI) in Hk.
      by apply (ConcurrentFacts.history_consistent lin). }
    rewrite Hw. apply lookup_lt_Some in Hk. unfold len in Hb.
    apply wrap_int_small. unfold min_int, max_int, int_bits in *. lia. }
  destruct (ConcurrentMore.completed_position _ _ _ _ _ HI Hi Hci)
    as (ki & oi & Hki & Hti & Hri & Hpi).
  fold resps in Hri, Hpi.
  split.
  - pose proof (Hid _ _ Hpi) as E. pose proof (lookup_lt_Some _ _ _ Hpi) as Hlt.
    unfold len. split; [lia|].
    replace (Z.to_nat (Supplier.ID ri - 1))
      with (length (created (take ki resps))) by lia.
    done.
  - intros j gj rj Hj Hcj Hne.
    destruct (ConcurrentMore.completed_position _ _ _ _ _ HI Hj Hcj)
      as (kj & oj & Hkj & Htj & Hrj & Hpj).
    fold resps in Hrj, Hpj.
    rewrite (Hid _ _ Hpi), (Hid _ _ Hpj).
    assert (ki <> kj) by (intros ->; congruence).
    destruct (decide (ki < kj)%nat) as [Hlt|Hge].
    + pose proof (ConcurrentMore.created_take_lt resps ki kj ri Hlt Hri). lia.
    + assert (Hlt : (kj < ki)%nat) by lia.
      pose proof (ConcurrentMore.created_take_lt resps kj ki rj Hlt Hrj). lia.
Qed.

Lemma ids_unique_under_concurrency_witness :
  let post t := mkHttpRequest "POST" ""
                  (DecodeOk (Supplier.mkRequest 0 t "Acme" "a@acme.com"
                                                "s1@x.com" "" 0)) in
  let rec1 := Supplier.mkRequest 1 "Logo" "Acme" "a@acme.com" "s1@x.com" "" 4 in
  let rec2 := Supplier.mkRequest 2 "Site" "Acme" "a@acme.com" "s1@x.com" "" 12 in
  let sched :=
    [Concurrent.Spawn (post "Logo"); Concurrent.Spawn (post "Site");
     Concurrent.Sched 0 1; Concurrent.Sched 1 1; Concurrent.Sched 0 2;
     Concurrent.Sched 0 3; Concurrent.Sched 0 4; Concurrent.Sched 0 5;
     Concurrent.Sched 0 6; Concurrent.Sched 0 7; Concurrent.Sched 1 9;
     Concurrent.Sched 0 10; Concurrent.Sched 1 11; Concurrent.Sched 1 12;
     Concurrent.Sched 1 13; Concurrent.Sched 1 14; Concurrent.Sched 1 15] in
  let w := Concurrent.mkWorld
             (Supplier.mkStore (mk_slice [rec1; rec2]) 3) false
             [Concurrent.mkG (post "Logo")
                (Concurrent.Finished (mkResponse StatusCreated (JsonOne rec1)));
              Concurrent.mkG (post "Site") (Concurrent.CreateRespond rec2)] in
  Concurrent.exec Concurrent.init_world sched = Some w
  /\ Supplier.ID rec1 <> Supplier.ID rec2.
Proof.
  intros post rec1 rec2 sched w.
  assert (He : Concurrent.exec Concurrent.init_world sched = Some w)
    by (vm_compute; reflexivity).
  split; [exact He|].
  refine (proj2 (ids_unique_under_concurrency sched w 0 _ rec1 He _ _ _)
                1%nat _ rec2 _ _ _).
  - reflexivity.
  - reflexivity.
  - right. reflexivity.
  - reflexivity.
  - left. reflexivity.
  - discriminate.
Defined.

(** X13.  No goroutine waits for ever: every execution can be continued so
    that a given goroutine returns its answer; and the goroutine that
    holds the mutex can always take its next step, so that [mu.Unlock()]
    is never called on a free mutex. *)
Theorem no_goroutine_waits_for_ever
    (ls : list Concurrent.label) (w : Concurrent.World)
    (i : nat) (g : Concurrent.goroutine) :
  Concurrent.exec Concurrent.init_world ls = Some w ->
  Concurrent.pool w !! i = Some g ->
  (exists (ls' : list Concurrent.label) (w' : Concurrent.World)
          (resp : Response Supplier.Request),
     Concurrent.exec Concurrent.init_world (ls ++ ls') = Some w'
     /\ Concurrent.pool w' !! i
        = Some (Concurrent.mkG (Concurrent.g_req g) (Concurrent.Finished resp)))
  /\ (Concurrent.in_cs (Concurrent.g_pc g) = true ->
      Concurrent.locked w = true
      /\ forall now : Time,
           exists w1, Concurrent.world_step w (Concurrent.Sched i now) = Some w1).
Proof.
  intros He Hi. split.
  - by apply (ConcurrentFacts.every_request_can_finish ls w).
  - intros Hcs.
    pose proof (Concurrent.inv_mutex _ _ (ConcurrentFacts.inv_reachable _ _ He)) as Hm.
    pose proof (ConcurrentFacts.holder_locked _ _ _ Hm Hi Hcs) as Hl.
    split; [done|]. intros now.
    destruct (ConcurrentFacts.solo_step now g (Concurrent.store w)
                (Concurrent.locked w)) as (p & st' & lk' & Hs & _).
    + right. done.
    + destruct g as [r p0]. simpl in *.
      destruct p0; simpl; (discriminate || lia).
    + simpl. rewrite Hi, Hs. eauto.
Qed.

Lemma no_goroutine_waits_for_ever_witness :
  let post := mkHttpRequest "POST" ""
                (DecodeOk (Supplier.mkRequest 0 "Logo" "Acme" "a@acme.com"
                                              "s1@x.com" "" 0)) in
  let get := mkHttpRequest "GET" "" (DecodeError "EOF") in
  let sched :=
    [Concurrent.Spawn post; Concurrent.Spawn get;
     Concurrent.Sched 0 1; Concurrent.Sched 1 1; Concurrent.Sched 0 2] in
  let w := Concurrent.mkWorld Supplier.init true
             [Concurrent.mkG post
                (Concurrent.CreateAssignID
                   (Supplier.mkRequest 0 "Logo" "Acme" "a@acme.com" "s1@x.com" "" 0));
              Concurrent.mkG get (Concurrent.ListLock "")] in
  Concurrent.exec Concurrent.init_world sched = Some w
  /\ exists (ls' : list Concurrent.label) (w' : Concurrent.World)
            (resp : Response Supplier.Request),
       Concurrent.exec Concurrent.init_world (sched ++ ls') = Some w'
       /\ Concurrent.pool w' !! 1%nat
          = Some (Concurrent.mkG get (Concurrent.Finished resp)).
Proof.
  intros post get sched w.
  assert (He : Concurrent.exec Concurrent.init_world sched = Some w)
    by (vm_compute; reflexivity).
  split; [exact He|].
  refine (proj1 (no_goroutine_waits_for_ever sched w 1
                   (Concurrent.mkG get (Concurrent.ListLock "")) He _)).
  reflexivity.
Defined.

Module ConcurrentStore.
Import Supplier SupplierFacts SupplierRun Concurrent ConcurrentFacts Schedule.

(** What a step does to the collection and to the record about to be
    appended. *)
Lemma go_step_collection (now : Time) (g : goroutine) (st st' : Store)
    (lk lk' : bool) (p : pc) :
  go_step now g st lk = Some (p, st', lk') ->
  (requests st' = requests st /\ forall nr, p <> CreateAppend nr)
  \/ (requests st' = requests st
      /\ exists nr, p = CreateAppend nr /\ CreatedAt nr = now)
  \/ (exists nr, g_pc g = CreateAppend nr
                 /\ requests st' = append (requests st) nr
                 /\ p = CreateIncr nr).
Proof.
  destruct g as [r p0]. unfold go_step. simpl.
  destruct p0 as [|nr|nr|nr|nr|nr|nr|nr|f|f|f rest acc|s|s|resp]; simpl;
    try (destruct lk; [|]); try discriminate;
    try (intros [= <- <- <-]; left; split; [done|discriminate]).
  - intros [= <- <- <-]. left. split; [done|]. intros nr E.
    pose proof (dispatch_outside r) as H. rewrite E in H. discriminate.
  - intros [= <- <- <-]. left. split; [done|]. intros nr E.
    pose proof (dispatch_outside r) as H. rewrite E in H. discriminate.
  - intros [= <- <- <-]. right. left. split; [done|]. eauto.
  - intros [= <- <- <-]. right. left. split; [done|]. eauto.
  - intros [= <- <- <-]. right. right. eauto.
  - intros [= <- <- <-]. right. right. eauto.
  - destruct (negb (f =? "")); intros [= <- <- <-]; left; (split; [done|discriminate]).
  - destruct (negb (f =? "")); intros [= <- <- <-]; left; (split; [done|discriminate]).
  - destruct rest; intros [= <- <- <-]; left; (split; [done|discriminate]).
  - destruct rest; intros [= <- <- <-]; left; (split; [done|discriminate]).
Qed.

Lemma exec_grows (ls : list label) :
  forall w w' : World,
    exec w ls = Some w' ->
    elems (requests (store w)) `prefix_of` elems (requests (store w')).
Proof.
  induction ls as [|l ls IH]; intros w w'; simpl.
  - by intros [= <-].
  - destruct (world_step w l) as [w1|] eqn:Hs; [|done]. intros He.
    transitivity (elems (requests (store w1))); [|by apply IH].
    destruct l as [r|i now]; simpl in Hs.
    + by injection Hs as <-.
    + destruct (pool w !! i) as [g|]; [|done].
      destruct (go_step now g (store w) (locked w)) as [[[p st] lk]|] eqn:Hg;
        [|done].
      injection Hs as <-. simpl.
      destruct (go_step_collection _ _ _ _ _ _ _ Hg)
        as [[-> _]|[[-> _]|(nr & _ & -> & _)]]; try done.
      by apply prefix_app_r.
Qed.

Lemma times_ok_later (w : World) (t t' : Time) :
  t <= t' -> times_ok w t -> times_ok w t'.
Proof.
  intros Hle (Hs & Hb & Ha). split; [done|]. split.
  - intros x Hx. specialize (Hb x Hx). lia.
  - intros i g nr Hi Hp. destruct (Ha i g nr Hi Hp) as [H1 H2].
    split; [lia|done].
Qed.

Lemma times_ok_step (w w' : World) (t : Time) (i : nat) (now : Time) :
  mutex_ok w -> times_ok w t -> t <= now ->
  world_step w (Sched i now) = Some w' -> times_ok w' now.
Proof.
  intros Hm HT Hle Hs. apply (times_ok_later w t now Hle) in HT as HT'.
  destruct HT' as (Hsort & Hb & Ha). simpl in Hs.
  destruct (pool w !! i) as [g|] eqn:Hi; [|done].
  destruct (go_step now g (store w) (locked w)) as [[[p st] lk]|] eqn:Hg; [|done].
  injection Hs as <-. unfold times_ok. simpl.
  destruct (go_step_collection _ _ _ _ _ _ _ Hg)
    as [[E Hp]|[[E (nr & -> & Hnow)]|(nr & Hpc & E & ->)]]; rewrite E.
  - split; [done|]. split; [done|]. intros j gj nr Hj Hpj.
    apply list_lookup_insert_Some in Hj as [(<- & <- & _)|(Hne & Hj)].
    + simpl in Hpj. by destruct (Hp nr).
    + by apply (Ha j gj).
  - split; [done|]. split; [done|]. intros j gj nr' Hj Hpj.
    apply list_lookup_insert_Some in Hj as [(<- & <- & _)|(Hne & Hj)].
    + simpl in Hpj. injection Hpj as <-. rewrite Hnow. split; [lia|done].
    + by apply (Ha j gj).
  - destruct (Ha i g nr Hi Hpc) as [Hnr Hall].
    rewrite elems_append. split; [|split].
    + rewrite map_app. apply StronglySorted_app. split; [|split; [done|]].
      * intros a b Ha' Hb'. simpl in Hb'.
        apply list_elem_of_singleton in Hb' as ->.
        apply list_elem_of_In, in_map_iff in Ha' as (x & <- & Hx).
        by apply Hall, list_elem_of_In.
      * simpl. repeat constructor.
    + intros x Hx. apply elem_of_app in Hx as [Hx|Hx]; [by apply Hb|].
      by apply list_elem_of_singleton in Hx as ->.
    + intros j gj nr' Hj Hpj.
      apply list_lookup_insert_Some in Hj as [(<- & <- & _)|(Hne & Hj)];
        [discriminate Hpj|].
      assert (Hcs : in_cs (g_pc g) = true) by (by rewrite Hpc).
      pose proof (others_outside _ _ _ _ _ Hm Hi Hcs Hj ltac:(congruence)) as Ho.
      rewrite Hpj in Ho. discriminate.
Qed.

Lemma mutex_world_step (w w' : World) (l : label) :
  mutex_ok w -> world_step w l = Some w' -> mutex_ok w'.
Proof.
  intros Hm Hs. destruct l as [r|i now]; simpl in Hs.
  - injection Hs as <-. by apply mutex_spawn.
  - destruct (pool w !! i) as [g|] eqn:Hi; [|done].
    destruct (go_step now g (store w) (locked w)) as [[[p st] lk]|] eqn:Hg;
      [|done].
    injection Hs as <-. by eapply mutex_step.
Qed.

Lemma times_ok_exec (ls : list label) :
  forall (w w' : World) (t : Time),
    mutex_ok w -> times_ok w t ->
    StronglySorted Z.le (t :: clock_of ls) ->
    exec w ls = Some w' ->
    exists t', times_ok w' t'.
Proof.
  induction ls as [|l ls IH]; intros w w' t Hm HT Hs; simpl.
  - intros [= <-]. eauto.
  - destruct (world_step w l) as [w1|] eqn:Hw; [|done]. intros He.
    pose proof (mutex_world_step _ _ _ Hm Hw) as Hm1.
    destruct l as [r|i now].
    + apply (IH w1 w' t); try done.
      simpl in Hw. injection Hw as <-. destruct HT as (H1 & H2 & H3).
      split; [done|]. split; [done|]. simpl. intros j gj nr Hj Hp.
      apply lookup_app_Some in Hj as [Hj|[_ Hj]]; [by apply (H3 j gj)|].
      apply list_lookup_singleton_Some in Hj as [_ <-]. discriminate.
    + simpl in Hs. apply StronglySorted_cons in Hs as [Hall Hs].
      apply (IH w1 w' now); try done.
      apply (times_ok_step w w1 t i now); try done.
      by apply Forall_cons in Hall as [? _].
Qed.

End ConcurrentStore.

(** X14.  Under every schedule, what a finished listing returned is the
    filtered view of a prefix of the collection: with a record it shows
    every earlier stored record that matches its filter, and the records
    come in stored order. *)
Theorem listing_shows_a_prefix
    (ls : list Concurrent.label) (w : Concurrent.World)
    (j : nat) (gj : Concurrent.goroutine) (s : slice Supplier.Request) :
  Concurrent.exec Concurrent.init_world ls = Some w ->
  Concurrent.pool w !! j = Some gj ->
  Concurrent.g_pc gj = Concurrent.Finished (mkResponse StatusOK (JsonList s)) ->
  exists n : nat,
    elems s
    = filter (fun r => Supplier.spec_MatchesFilter r
                         (supplier_email_param (Concurrent.g_req gj)) = true)
             (take n (elems (Supplier.requests (Concurrent.store w)))).
Proof.
  intros He Hj Hp.
  pose proof (ConcurrentFacts.inv_reachable _ _ He) as HI.
  set (lin := Concurrent.linearization Concurrent.init_world ls) in *.
  pose proof (Concurrent.inv_lin _ _ HI _ _ Hj) as Hl.
  unfold Concurrent.lin_ok in Hl. rewrite Hp in Hl.
  destruct Hl as (k & o & Hk & _ & Hr & Hresp).
  destruct (ConcurrentFacts.listing_in_history _ _ _ _ Hk Hresp) as [Hs _].
  destruct (ConcurrentFacts.history_lookup _ _ _ Hk) as [_ Htake].
  exists (length (created (take k (snd (Concurrent.history lin))))).
  rewrite Hs, SupplierFacts.filteredRequests_spec, Hr.
  rewrite ConcurrentFacts.history_requests, <- Htake.
  rewrite (ConcurrentMore.store_requests _ _ HI).
  by rewrite <- ConcurrentMore.created_take_prefix.
Qed.

Lemma listing_shows_a_prefix_witness :
  let post := mkHttpRequest "POST" ""
                (DecodeOk (Supplier.mkRequest 0 "Logo" "Acme" "a@acme.com"
                                              "s1@x.com" "" 0)) in
  let get := mkHttpRequest "GET" "" (DecodeError "EOF") in
  let rec1 := Supplier.mkRequest 1 "Logo" "Acme" "a@acme.com" "s1@x.com" "" 9 in
  let sched :=
    [Concurrent.Spawn get; Concurrent.Spawn post;
     Concurrent.Sched 0 1; Concurrent.Sched 0 2; Concurrent.Sched 0 3;
     Concurrent.Sched 0 4; Concurrent.Sched 0 5;
     Concurrent.Sched 1 6; Concurrent.Sched 1 7; Concurrent.Sched 1 8;
     Concurrent.Sched 1 9; Concurrent.Sched 1 10] in
  let w := Concurrent.mkWorld
             (Supplier.mkStore (mk_slice [rec1]) 1) true
             [Concurrent.mkG get
                (Concurrent.Finished (mkResponse StatusOK (JsonList (mk_slice []))));
              Concurrent.mkG post (Concurrent.CreateIncr rec1)] in
  Concurrent.exec Concurrent.init_world sched = Some w
  /\ exists n : nat,
       elems (mk_slice (A := Supplier.Request) [])
       = filter (fun r => Supplier.spec_MatchesFilter r "" = true)
                (take n (elems (Supplier.requests (Concurrent.store w)))).
Proof.
  intros post get rec1 sched w.
  assert (He : Concurrent.exec Concurrent.init_world sched = Some w)
    by (vm_compute; reflexivity).
  split; [exact He|].
  refine (listing_shows_a_prefix sched w 0
            (Concurrent.mkG get
               (Concurrent.Finished (mkResponse StatusOK (JsonList (mk_slice [])))))
            (mk_slice []) He _ _).
  - reflexivity.
  - reflexivity.
Defined.

(** X15.  No step of any goroutine removes or changes a stored record:
    along every schedule, from any state, the collection only grows at
    its end. *)
Theorem collection_only_grows_under_concurrency
    (ls : list Concurrent.label) (w w' : Concurrent.World) :
  Concurrent.exec w ls = Some w' ->
  elems (Supplier.requests (Concurrent.store w))
  `prefix_of` elems (Supplier.requests (Concurrent.store w'))
  /\ forall (k : nat) (x : Supplier.Request),
       elems (Supplier.requests (Concurrent.store w)) !! k = Some x ->
       elems (Supplier.requests (Concurrent.store w')) !! k = Some x.
Proof.
  intros He. pose proof (ConcurrentStore.exec_grows ls w w' He) as Hp.
  split; [done|]. intros k x Hk. by apply (prefix_lookup_Some _ _ _ _ Hk).
Qed.

Lemma collection_only_grows_under_concurrency_witness :
  let post := mkHttpRequest "POST" ""
                (DecodeOk (Supplier.mkRequest 0 "Site" "Acme" "a@acme.com"
                                              "s2@x.com" "" 0)) in
  let rec1 := Supplier.mkRequest 1 "Logo" "Acme" "a@acme.com" "s1@x.com" "" 9 in
  let rec2 := Supplier.mkRequest 2 "Site" "Acme" "a@acme.com" "s2@x.com" "" 4 in
  let w := Concurrent.mkWorld (Supplier.mkStore (mk_slice [rec1]) 2) false [] in
  let sched :=
    [Concurrent.Spawn post; Concurrent.Sched 0 1; Concurrent.Sched 0 2;
     Concurrent.Sched 0 3; Concurrent.Sched 0 4; Concurrent.Sched 0 5] in
  let w' := Concurrent.mkWorld (Supplier.mkStore (mk_slice [rec1; rec2]) 2) true
              [Concurrent.mkG post (Concurrent.CreateIncr rec2)] in
  Concurrent.exec w sched = Some w'
  /\ elems (Supplier.requests (Concurrent.store w))
     `prefix_of` elems (Supplier.requests (Concurrent.store w')).
Proof.
  intros post rec1 rec2 w sched w'.
  assert (He : Concurrent.exec w sched = Some w') by (vm_compute; reflexivity).
  split; [exact He|].
  exact (proj1 (collection_only_grows_under_concurrency sched w w' He)).
Defined.

(** X16.  [time.Now()] is read under the mutex: under every schedule along
    which the clock does not go back, the stored records are in
    non-decreasing order of creation time, that is, ids and creation times
    are ordered alike. *)
Theorem creation_times_ordered_under_concurrency
    (ls : list Concurrent.label) (w : Concurrent.World) :
  Concurrent.exec Concurrent.init_world ls = Some w ->
  StronglySorted Z.le (Schedule.clock_of ls) ->
  StronglySorted Z.le
    (map Supplier.CreatedAt (elems (Supplier.requests (Concurrent.store w)))).
Proof.
  intros He Hs.
  assert (Hinit : forall t, Schedule.times_ok Concurrent.init_world t).
  { intros t. split; [constructor|]. split.
    - intros x Hx. by apply elem_of_nil in Hx.
    - intros i g nr Hi. by destruct i. }
  assert (Hm : Concurrent.mutex_ok Concurrent.init_world)
    by apply (Concurrent.inv_mutex _ _ ConcurrentFacts.inv_init).
  assert (Hc : StronglySorted Z.le
                 (hd 0 (Schedule.clock_of ls) :: Schedule.clock_of ls)).
  { destruct (Schedule.clock_of ls) as [|c cs]; simpl.
    - repeat constructor.
    - apply StronglySorted_cons. split; [|done].
      apply StronglySorted_cons in Hs as [Hall _].
      apply Forall_cons. split; [lia|done]. }
  destruct (ConcurrentStore.times_ok_exec ls Concurrent.init_world w
              (hd 0 (Schedule.clock_of ls)) Hm (Hinit _) Hc He)
    as (t' & Ht & _).
  exact Ht.
Qed.

Lemma creation_times_ordered_under_concurrency_witness :
  let post t := mkHttpRequest "POST" ""
                  (DecodeOk (Supplier.mkRequest 0 t "Acme" "a@acme.com"
                                                "s1@x.com" "" 77)) in
  let rec1 := Supplier.mkRequest 1 "Logo" "Acme" "a@acme.com" "s1@x.com" "" 4 in
  let rec2 := Supplier.mkRequest 2 "Site" "Acme" "a@acme.com" "s1@x.com" "" 12 in
  let sched :=
    [Concurrent.Spawn (post "Logo"); Concurrent.Spawn (post "Site");
     Concurrent.Sched 0 1; Concurrent.Sched 1 1; Concurrent.Sched 0 2;
     Concurrent.Sched 0 3; Concurrent.Sched 0 4; Concurrent.Sched 0 5;
     Concurrent.Sched 0 6; Concurrent.Sched 0 7; Concurrent.Sched 1 9;
     Concurrent.Sched 0 10; Concurrent.Sched 1 11; Concurrent.Sched 1 12;
     Concurrent.Sched 1 13; Concurrent.Sched 1 14; Concurrent.Sched 1 15] in
  let w := Concurrent.mkWorld
             (Supplier.mkStore (mk_slice [rec1; rec2]) 3) false
             [Concurrent.mkG (post "Logo")
                (Concurrent.Finished (mkResponse StatusCreated (JsonOne rec1)));
              Concurrent.mkG (post "Site") (Concurrent.CreateRespond rec2)] in
  Concurrent.exec Concurrent.init_world sched = Some w
  /\ StronglySorted Z.le
       (map Supplier.CreatedAt (elems (Supplier.requests (Concurrent.store w)))).
Proof.
  intros post rec1 rec2 sched w.
  assert (He : Concurrent.exec Concurrent.init_world sched = Some w)
    by (vm_compute; reflexivity).
  split; [exact He|].
  refine (creation_times_ordered_under_concurrency sched w He _).
  simpl. repeat (constructor; [|repeat (constructor; try lia)]). constructor.
Defined.
